(** * SMR-Agents: knowledge retrieval, result ledger and consensus loop

  A shallow embedding of the Python sources

  - [knowledge_base/preprocessor.py]   ([process_radgraph],
    [process_tcga_reports], [create_entity_index], [save_processed_data]),
  - [knowledge_base/retriever.py]      ([find_similar_entities],
    [retrieve_entity_knowledge], [retrieve_relationship_knowledge],
    [extract_entities_from_scene_graph],
    [retrieve_knowledge_for_scene_graph]),
  - [utils/output_utils.py]            ([format_output_filepath],
    [format_json_out_put], [filter_finished]),
  - [utils/register.py]                ([Registry]),
  - [scripts/SMRAgents.py]             ([generate_and_refine_scene_graph],
    [process_feedback_iteration], [update_specialist_opinions], [run]),

  together with the properties the specification states about them.

  Conventions.  Python [str] is [string] (the texts are taken to be
  ASCII, so [str.lower] only moves the letters A-Z); Python [int] is [Z];
  an insertion-ordered [dict] is an association list with unique keys;
  slices follow Python's clamping rules; [list.sort] is a stable
  insertion sort; [numpy.argsort] sorts by value and orders equal values
  as the library chooses. *)

From Stdlib Require Import List String Ascii Bool Arith ZArith QArith Lia.
From Stdlib Require Import Sorted Permutation.
Import ListNotations.

Local Open Scope string_scope.
Local Open Scope list_scope.

(* ------------------------------------------------------------------ *)
(** ** Python sequences *)

Module PySeq.

(** [l[start:]] for any integer [start]: a negative start counts from
    the end, and the bound is clamped to [0 .. len l]. *)
Definition slice_from {A} (start : Z) (l : list A) : list A :=
  let n := Z.of_nat (List.length l) in
  let lo := if (start <? 0)%Z then Z.max 0 (start + n) else Z.min start n in
  skipn (Z.to_nat lo) l.

(** [l[:stop]] for any integer [stop], with the same clamping. *)
Definition slice_to {A} (stop : Z) (l : list A) : list A :=
  let n := Z.of_nat (List.length l) in
  let hi := if (stop <? 0)%Z then Z.max 0 (stop + n) else Z.min stop n in
  firstn (Z.to_nat hi) l.

(** One step of a stable insertion sort: [x] goes behind every element
    that is not greater than it. *)
Fixpoint insert_sorted {A} (leb : A -> A -> bool) (x : A) (l : list A) : list A :=
  match l with
  | [] => [x]
  | y :: l' => if leb y x then y :: insert_sorted leb x l' else x :: y :: l'
  end.

(** Stable sort: the elements are inserted from left to right. *)
Definition stable_sort {A} (leb : A -> A -> bool) (l : list A) : list A :=
  fold_left (fun acc x => insert_sorted leb x acc) l [].

End PySeq.

(* ------------------------------------------------------------------ *)
(** ** Python strings *)

Module PyStr.

Definition is_upper (c : ascii) : bool :=
  let n := nat_of_ascii c in (65 <=? n)%nat && (n <=? 90)%nat.

Definition lower_char (c : ascii) : ascii :=
  if is_upper c then ascii_of_nat (nat_of_ascii c + 32) else c.

(** [s.lower()] *)
Fixpoint lower (s : string) : string :=
  match s with
  | EmptyString => EmptyString
  | String c s' => String (lower_char c) (lower s')
  end.

(** [s.replace(a, b)] for one-character [a] and [b]. *)
Fixpoint replace_char (a b : ascii) (s : string) : string :=
  match s with
  | EmptyString => EmptyString
  | String c s' => String (if Ascii.eqb c a then b else c) (replace_char a b s')
  end.

(** [s.startswith(p)] *)
Fixpoint starts_with (p s : string) : bool :=
  match p, s with
  | EmptyString, _ => true
  | String _ _, EmptyString => false
  | String a p', String b s' => Ascii.eqb a b && starts_with p' s'
  end.

(** [needle in hay] *)
Fixpoint contains (needle hay : string) : bool :=
  starts_with needle hay ||
  match hay with
  | EmptyString => false
  | String _ hay' => contains needle hay'
  end.

(** [hay.find(needle)], counted from position [pos] of the original
    text; [None] stands for the result [-1]. *)
Fixpoint find_from (pos : nat) (needle hay : string) : option nat :=
  if starts_with needle hay then Some pos
  else match hay with
       | EmptyString => None
       | String _ hay' => find_from (S pos) needle hay'
       end.

Definition find (needle hay : string) : option nat := find_from 0 needle hay.

(** [s[lo:hi]] for [0 <= lo], [0 <= hi]. *)
Definition slice (lo hi : nat) (s : string) : string :=
  substring lo (hi - lo) s.

Definition is_space (c : ascii) : bool :=
  let n := nat_of_ascii c in
  ((9 <=? n)%nat && (n <=? 13)%nat) || ((28 <=? n)%nat && (n <=? 32)%nat).

Fixpoint lstrip (s : string) : string :=
  match s with
  | EmptyString => EmptyString
  | String c s' => if is_space c then lstrip s' else s
  end.

Fixpoint rstrip (s : string) : string :=
  match s with
  | EmptyString => EmptyString
  | String c s' =>
      match rstrip s' with
      | EmptyString => if is_space c then EmptyString else String c EmptyString
      | r => String c r
      end
  end.

(** [s.strip()] *)
Definition strip (s : string) : string := rstrip (lstrip s).

(** [s.split('\n')[0]]: the text before the first line feed. *)
Fixpoint first_line (s : string) : string :=
  match s with
  | EmptyString => EmptyString
  | String c s' =>
      if Ascii.eqb c (ascii_of_nat 10) then EmptyString else String c (first_line s')
  end.

(** [sep.join(parts)] *)
Fixpoint join (sep : string) (parts : list string) : string :=
  match parts with
  | [] => EmptyString
  | [p] => p
  | p :: rest => p ++ sep ++ join sep rest
  end.

End PyStr.

(* ------------------------------------------------------------------ *)
(** ** Insertion-ordered dictionaries *)

Module PyDict.

Definition dict (V : Type) : Type := list (string * V).

(** [d.get(k)] / [d[k]] *)
Fixpoint get {V} (k : string) (d : dict V) : option V :=
  match d with
  | [] => None
  | (k', v) :: d' => if String.eqb k k' then Some v else get k d'
  end.

(** [k in d] *)
Definition mem {V} (k : string) (d : dict V) : bool :=
  match get k d with Some _ => true | None => false end.

(** [d[k] = v]: an existing key keeps its place, a new key goes last. *)
Fixpoint set {V} (k : string) (v : V) (d : dict V) : dict V :=
  match d with
  | [] => [(k, v)]
  | (k', v') :: d' =>
      if String.eqb k k' then (k', v) :: d' else (k', v') :: set k v d'
  end.

(** [list(d.keys())] *)
Definition keys {V} (d : dict V) : list string := map fst d.

End PyDict.

(* ------------------------------------------------------------------ *)
(** ** knowledge_base/preprocessor.py *)

Module Preprocessor.

(** A triplet [(subject, predicate, object)]. *)
Definition triplet : Type := string * string * string.

Definition t_subject (t : triplet) : string := fst (fst t).
Definition t_predicate (t : triplet) : string := snd (fst t).
Definition t_object (t : triplet) : string := snd t.

Definition triplet_eqb (a b : triplet) : bool :=
  String.eqb (t_subject a) (t_subject b)
  && String.eqb (t_predicate a) (t_predicate b)
  && String.eqb (t_object a) (t_object b).

Definition entity_index : Type := PyDict.dict (list triplet).

(** The two statements
    [if e not in entity_index: entity_index[e] = []] and
    [entity_index[e].append(triplet)].  After the first the key is
    present, so the lookup of the second never fails. *)
Definition index_under (e : string) (t : triplet) (idx : entity_index) : entity_index :=
  let idx1 := if PyDict.mem e idx then idx else PyDict.set e [] idx in
  match PyDict.get e idx1 with
  | Some bucket => PyDict.set e (bucket ++ [t]) idx1
  | None => idx1
  end.

(** The body of the loop of [create_entity_index]. *)
Definition index_triplet (idx : entity_index) (t : triplet) : entity_index :=
  index_under (t_object t) t (index_under (t_subject t) t idx).

Definition create_entity_index (triplets : list triplet) : entity_index :=
  fold_left index_triplet triplets [].

(** The keys of the index whose bucket contains [t]. *)
Definition keys_holding (t : triplet) (idx : entity_index) : list string :=
  PyDict.keys (filter (fun kb => existsb (triplet_eqb t) (snd kb)) idx).

(** What the store contributes to the bucket of [e]: every triplet
    once for [e] as its subject and once for [e] as its object. *)
Definition occurrences (e : string) (t : triplet) : list triplet :=
  (if String.eqb (t_subject t) e then [t] else [])
  ++ (if String.eqb (t_object t) e then [t] else []).

Definition bucket_of (e : string) (triplets : list triplet) : list triplet :=
  flat_map (occurrences e) triplets.

(** The bucket under a key, empty when the key is absent. *)
Definition bucket (e : string) (idx : entity_index) : list triplet :=
  match PyDict.get e idx with Some b => b | None => [] end.

(** What the index holds once [store] has been read: the keys are
    distinct, and a key is present exactly when the store contributes to
    its bucket. *)
Definition indexes (idx : entity_index) (store : list triplet) : Prop :=
  NoDup (PyDict.keys idx)
  /\ forall k,
       PyDict.get k idx = match bucket_of k store with [] => None | b => Some b end.

(** A RadGraph report as parsed from JSON.  A key that may be missing
    is an [option]; labels, types and attribute values are strings;
    [entities] and [attributes] are dicts in their insertion order; a
    relation that is not a dict is [relation_other]. *)
Record rad_entity : Type := {
  ent_label : option string;
  ent_label_type : option string;
  ent_attributes : option (list (string * string))
}.

Inductive rad_relation : Type :=
| relation_dict (rel_subject rel_type rel_object : option string)
| relation_other.

Record rad_report : Type := {
  rep_entities : option (PyDict.dict rad_entity);
  rep_relations : option (list rad_relation)
}.

Definition or_default {A} (default : A) (v : option A) : A :=
  match v with Some a => a | None => default end.

(** [f"{label}:{type}"] of an entry of [entity_map]. *)
Definition entity_label (info : rad_entity) : string :=
  (or_default "" (ent_label info) ++ ":" ++ or_default "" (ent_label_type info))%string.

(** The triplet of one relation, when it is a dict and both ids are
    keys of [entity_map]. *)
Definition relation_triplets (entity_map : PyDict.dict rad_entity)
  (relation : rad_relation) : list triplet :=
  match relation with
  | relation_dict subject_id predicate object_id =>
      match PyDict.get (or_default "" subject_id) entity_map,
            PyDict.get (or_default "" object_id) entity_map with
      | Some subject_info, Some object_info =>
          [(entity_label subject_info, or_default "" predicate,
            entity_label object_info)]
      | _, _ => []
      end
  | relation_other => []
  end.

(** The attribute triplets of one entry of [entity_map]. *)
Definition attribute_triplets (entry : string * rad_entity) : list triplet :=
  map (fun kv => (entity_label (snd entry), ("has_" ++ fst kv)%string, snd kv))
    (or_default [] (ent_attributes (snd entry))).

(** What one report adds in [process_radgraph]. *)
Definition radgraph_report_triplets (report : rad_report) : list triplet :=
  match rep_entities report, rep_relations report with
  | Some entities, Some relations =>
      flat_map (relation_triplets entities) relations
      ++ flat_map attribute_triplets entities
  | _, _ => []
  end.

Definition process_radgraph (radgraph_data : list (string * rad_report))
  : list triplet :=
  flat_map (fun entry => radgraph_report_triplets (snd entry)) radgraph_data.

(** A TCGA report: [None] without the key [findings]; findings that are
    not a dict are [findings_other]; a finding that is not a dict is
    [finding_other]. *)
Inductive tcga_finding : Type :=
| finding_dict (entity : option string) (attributes : option (list (string * string)))
| finding_other.

Inductive tcga_findings : Type :=
| findings_dict (by_organ : list (string * list tcga_finding))
| findings_other.

Definition tcga_report : Type := option tcga_findings.

(** What one finding of an organ adds in [process_tcga_reports]. *)
Definition finding_triplets (organ : string) (finding : tcga_finding) : list triplet :=
  match finding with
  | finding_dict entity attributes =>
      let entity := or_default "" entity in
      (if negb (String.eqb entity "") && negb (String.eqb organ "")
       then [(entity, "located_in", organ)] else [])
      ++ flat_map
           (fun kv =>
              if negb (String.eqb entity "")
              then [(entity, ("has_" ++ fst kv)%string, snd kv)] else [])
           (or_default [] attributes)
  | finding_other => []
  end.

Definition tcga_report_triplets (report : tcga_report) : list triplet :=
  match report with
  | Some (findings_dict by_organ) =>
      flat_map (fun entry => flat_map (finding_triplets (fst entry)) (snd entry))
        by_organ
  | _ => []
  end.

Definition process_tcga_reports (tcga_data : list tcga_report) : list triplet :=
  flat_map tcga_report_triplets tcga_data.

(** The metadata written by [save_processed_data]. *)
Record metadata : Type := {
  total_triplets : nat;
  radgraph_triplets : nat;
  tcga_triplets : nat;
  unique_entities : nat
}.

(** [save_processed_data]: the triplets, the entity index and the
    metadata that are written. *)
Definition save_processed_data (radgraph tcga : list triplet)
  : list triplet * entity_index * metadata :=
  let all_triplets := radgraph ++ tcga in
  let index := create_entity_index all_triplets in
  (all_triplets, index,
   {| total_triplets := List.length all_triplets;
      radgraph_triplets := List.length radgraph;
      tcga_triplets := List.length tcga;
      unique_entities := List.length index |}).

(** [preprocess]: both corpora, then the save. *)
Definition preprocess (radgraph_data : list (string * rad_report))
  (tcga_data : list tcga_report) : list triplet * entity_index * metadata :=
  save_processed_data (process_radgraph radgraph_data) (process_tcga_reports tcga_data).

(** The texts of a list in the order of their first occurrence. *)
Definition first_occurrences (l : list string) : list string :=
  fold_left (fun seen x => if existsb (String.eqb x) seen then seen else seen ++ [x])
    l [].

(** The entities a store mentions, subject before object. *)
Definition mentions (store : list triplet) : list string :=
  flat_map (fun t => [t_subject t; t_object t]) store.

(** The number of triplets the buckets of an index hold in all. *)
Definition total_size (idx : entity_index) : nat :=
  list_sum (map (fun kb => List.length (snd kb)) idx).

(** A RadGraph report with two nodules and a relation between them, and
    a TCGA report with one finding. *)
Definition twin_report : rad_report :=
  {| rep_entities :=
       Some [("1", {| ent_label := Some "nodule"; ent_label_type := Some "OBS-DP";
                      ent_attributes := Some [("size", "2cm")] |});
             ("2", {| ent_label := Some "nodule"; ent_label_type := Some "OBS-DP";
                      ent_attributes := None |})];
     rep_relations := Some [relation_dict (Some "1") (Some "located_at") (Some "2")] |}.

Definition lung_finding : tcga_report :=
  Some (findings_dict
          [("lung", [finding_dict (Some "adenocarcinoma") (Some [("grade", "2")])])]).

End Preprocessor.

(* ------------------------------------------------------------------ *)
(** ** knowledge_base/retriever.py *)

Module Retriever.
Import Preprocessor.

(** The numerical libraries behind the similarity index.
    [TfidfVectorizer] and [cosine_similarity] are scikit-learn's:
    [tfidf_cosine corpus q e] stands for the cosine between the vector of
    the query text [q] and the row of the entity text [e], both taken by
    the vectorizer fitted on [corpus]; the score is the rational value of
    the float the library returns.  [numpy.argsort] is called with its
    default sort, which is not stable: of two positions [i], [j] that hold
    equal values of [a], which one it puts first is NumPy's choice,
    [argsort_ties a i j] when [i] is to stay before [j]. *)
Class Vectorizer : Type := {
  tfidf_cosine : list string -> string -> string -> Q;
  argsort_ties : list Q -> nat -> nat -> bool
}.

(** The fields of [KnowledgeBaseRetriever] read by the retrieval methods. *)
Record KnowledgeBaseRetriever : Type := {
  triplets : list triplet;
  entity_index : Preprocessor.entity_index
}.

(** [text.lower().replace(':', ' ').replace('_', ' ')] *)
Definition normalize (text : string) : string :=
  PyStr.replace_char "_" " " (PyStr.replace_char ":" " " (PyStr.lower text)).

(** The similarity threshold [0.3].  A float is greater than the float
    nearest to 0.3 exactly when its value is greater than 3/10. *)
Definition threshold : Q := 3 # 10.

Definition above_threshold (s : Q) : bool := negb (Qle_bool s threshold).

(** Position [i] stays before position [j] in the argsort of [a]: its
    value is smaller, or the values are equal and NumPy has it so. *)
Definition stays_before {V : Vectorizer} (a : list Q) (i j : nat) : bool :=
  negb (Qle_bool (nth j a 0%Q) (nth i a 0%Q))
  || (Qeq_bool (nth i a 0%Q) (nth j a 0%Q) && argsort_ties a i j).

(** [numpy.argsort(a)]: the positions of [a] in ascending order of
    value, equal values in the order the library chooses.  Every such
    order is the result for some [argsort_ties]. *)
Definition argsort {V : Vectorizer} (a : list Q) : list nat :=
  PySeq.stable_sort (stays_before a) (seq 0 (List.length a)).

(** The place of position [i] in an order [p] of the positions. *)
Fixpoint place (i : nat) (p : list nat) : nat :=
  match p with
  | [] => 0%nat
  | x :: p' => if Nat.eqb x i then 0%nat else S (place i p')
  end.

(** The choice among equal values that follows the order [p]. *)
Definition ties_as (p : list nat) (a : list Q) (i j : nat) : bool :=
  Nat.ltb (place i p) (place j p).

(** The same scores with another choice among equal values. *)
Definition with_ties (V : Vectorizer) (ties : list Q -> nat -> nat -> bool)
  : Vectorizer :=
  {| tfidf_cosine := @tfidf_cosine V; argsort_ties := ties |}.

(** A scene graph as parsed from JSON: a key that may be missing is an
    [option]; the values read are strings; [attributes] is a dict in its
    insertion order. *)
Record sg_object : Type := {
  obj_id : option string;
  obj_type : option string;
  obj_attributes : option (list (string * string))
}.

Record sg_condition : Type := {
  cond_type : option string;
  cond_description : option string
}.

Record sg_relation : Type := {
  rel_subject : option string;
  rel_predicate : option string;
  rel_object : option string
}.

Record scene_graph : Type := {
  sg_objects : option (list sg_object);
  sg_conditions : option (list sg_condition);
  sg_relationships : option (list sg_relation)
}.

(** [d.get(key, default)] *)
Definition get_or {A} (default : A) (v : option A) : A :=
  match v with Some a => a | None => default end.

(** What one object adds in [extract_entities_from_scene_graph]. *)
Definition object_entities (obj : sg_object) : list string :=
  (match obj_type obj with Some ty => [ty] | None => [] end)
  ++ match obj_attributes obj with
     | Some attributes =>
         map (fun kv => (get_or "entity" (obj_type obj) ++ ":" ++ fst kv ++ ":"
                         ++ snd kv)%string)
           attributes
     | None => []
     end.

(** What one condition adds. *)
Definition condition_entities (condition : sg_condition) : list string :=
  (match cond_type condition with Some ty => [ty] | None => [] end)
  ++ (match cond_description condition with Some d => [d] | None => [] end).

Definition extract_entities_from_scene_graph (graph : scene_graph) : list string :=
  flat_map object_entities (get_or [] (sg_objects graph))
  ++ flat_map condition_entities (get_or [] (sg_conditions graph)).

(** The loop over the objects that resolves the two ids of a relation
    to object types: the last object with the id decides; an object with
    no type gives the empty text. *)
Definition resolve_step (subject_id object_id : string)
  (found : option string * option string) (obj : sg_object)
  : option string * option string :=
  let is_id (i : string) :=
    match obj_id obj with Some j => String.eqb j i | None => false end in
  let subject_entity :=
    if is_id subject_id then Some (get_or "" (obj_type obj)) else fst found in
  let object_entity :=
    if is_id object_id then Some (get_or "" (obj_type obj)) else snd found in
  (subject_entity, object_entity).

Definition resolve_relation (graph : scene_graph) (relation : sg_relation)
  : option string * option string :=
  fold_left
    (resolve_step (get_or "" (rel_subject relation)) (get_or "" (rel_object relation)))
    (get_or [] (sg_objects graph)) (None, None).

(** Truth of an optional text: assigned and not empty. *)
Definition truthy (v : option string) : bool :=
  match v with Some s => negb (String.eqb s "") | None => false end.

(** The key under which the knowledge of a relation is stored. *)
Definition relation_key (subject_entity predicate object_entity : string) : string :=
  (subject_entity ++ "-" ++ predicate ++ "-" ++ object_entity)%string.

(** [bool(l)] for a list. *)
Definition nonempty {A} (l : list A) : bool :=
  match l with [] => false | _ => true end.

Section Retrieval.
Context {V : Vectorizer}.
Variable self : KnowledgeBaseRetriever.

(** [self.entity_list], set by [_build_semantic_index]. *)
Definition entity_list : list string := PyDict.keys (entity_index self).

(** [entity_texts], the corpus the vectorizer is fitted on. *)
Definition entity_texts : list string := map normalize entity_list.

(** [cosine_similarity(query_vector, self.entity_embeddings).flatten()] *)
Definition similarities (query_entity : string) : list Q :=
  map (tfidf_cosine entity_texts (normalize query_entity)) entity_texts.

(** [np.argsort(similarities)[-top_k:][::-1]] *)
Definition top_indices (query_entity : string) (top_k : Z) : list nat :=
  rev (PySeq.slice_from (- top_k) (argsort (similarities query_entity))).

Definition find_similar_entities (query_entity : string) (top_k : Z)
  : list (string * Q) :=
  let sims := similarities query_entity in
  flat_map
    (fun idx =>
       if above_threshold (nth idx sims 0%Q)
       then [(nth idx entity_list "", nth idx sims 0%Q)]
       else [])
    (top_indices query_entity top_k).

(** The positions [find_similar_entities] returns, in the order of its
    result. *)
Definition selected_indices (query_entity : string) (top_k : Z) : list nat :=
  filter (fun idx => above_threshold (nth idx (similarities query_entity) 0%Q))
    (top_indices query_entity top_k).

(** The body of the loop over [similar_entities] in
    [retrieve_entity_knowledge]; [n_similar] is [len(similar_entities)]. *)
Definition extend_from_similar (max_triplets : Z) (n_similar : nat)
  (retrieved : list triplet) (similar : string * Q) : list triplet :=
  match PyDict.get (fst similar) (entity_index self) with
  | Some bucket =>
      let remaining_slots := (max_triplets - Z.of_nat (List.length retrieved))%Z in
      if (remaining_slots >? 0)%Z
      then retrieved ++ PySeq.slice_to (remaining_slots / Z.of_nat n_similar) bucket
      else retrieved
  | None => retrieved
  end.

Definition retrieve_entity_knowledge (entity : string) (max_triplets : Z)
  : list triplet :=
  let direct :=
    match PyDict.get entity (entity_index self) with
    | Some bucket => PySeq.slice_to (max_triplets / 2) bucket
    | None => []
    end in
  let similar_entities := find_similar_entities entity 3 in
  let retrieved :=
    fold_left (extend_from_similar max_triplets (List.length similar_entities))
      similar_entities direct in
  PySeq.slice_to max_triplets retrieved.

(** The test on the predicates. *)
Definition similar_predicate (predicate : string) (t : triplet) : bool :=
  PyStr.contains (PyStr.lower predicate) (PyStr.lower (t_predicate t))
  || PyStr.contains (PyStr.lower (t_predicate t)) (PyStr.lower predicate).

(** The test on the entities: subject against subject, object against
    object. *)
Definition related_entities (subject obj : string) (t : triplet) : bool :=
  PyStr.contains (PyStr.lower subject) (PyStr.lower (t_subject t))
  || PyStr.contains (PyStr.lower (t_subject t)) (PyStr.lower subject)
  || PyStr.contains (PyStr.lower obj) (PyStr.lower (t_object t))
  || PyStr.contains (PyStr.lower (t_object t)) (PyStr.lower obj).

Definition retrieve_relationship_knowledge (subject predicate obj : string)
  : list triplet :=
  let retrieved :=
    fold_left
      (fun retrieved_triplets t =>
         if similar_predicate predicate t
         then if related_entities subject obj t
              then retrieved_triplets ++ [t]
              else retrieved_triplets
         else retrieved_triplets)
      (triplets self) [] in
  PySeq.slice_to 5 retrieved.

(** The first loop of [retrieve_knowledge_for_scene_graph]: one entity
    mention. *)
Definition add_entity_knowledge (max_knowledge_per_entity : Z)
  (knowledge_dict : PyDict.dict (list triplet)) (entity : string)
  : PyDict.dict (list triplet) :=
  let entity_knowledge := retrieve_entity_knowledge entity max_knowledge_per_entity in
  if nonempty entity_knowledge
  then PyDict.set entity entity_knowledge knowledge_dict
  else knowledge_dict.

(** The second loop: one relation. *)
Definition add_relation_knowledge (graph : scene_graph)
  (knowledge_dict : PyDict.dict (list triplet)) (relation : sg_relation)
  : PyDict.dict (list triplet) :=
  let predicate := get_or "" (rel_predicate relation) in
  let (subject_entity, object_entity) := resolve_relation graph relation in
  if truthy subject_entity && truthy object_entity then
    let relation_knowledge :=
      retrieve_relationship_knowledge (get_or "" subject_entity) predicate
        (get_or "" object_entity) in
    if nonempty relation_knowledge
    then PyDict.set
           (relation_key (get_or "" subject_entity) predicate (get_or "" object_entity))
           relation_knowledge knowledge_dict
    else knowledge_dict
  else knowledge_dict.

Definition retrieve_knowledge_for_scene_graph (graph : scene_graph)
  (max_knowledge_per_entity : Z) : PyDict.dict (list triplet) :=
  let entities := extract_entities_from_scene_graph graph in
  let knowledge_dict :=
    fold_left (add_entity_knowledge max_knowledge_per_entity) entities [] in
  match sg_relationships graph with
  | Some relationships =>
      fold_left (add_relation_knowledge graph) relationships knowledge_dict
  | None => knowledge_dict
  end.

(** A triplet held by some bucket of the index. *)
Definition in_some_bucket (t : triplet) : Prop :=
  exists k b, PyDict.get k (entity_index self) = Some b /\ In t b.

(** What the dictionary of [retrieve_knowledge_for_scene_graph] may hold
    under a key. *)
Definition from_retrieval (graph : scene_graph) (max_k : Z) (k : string)
  (v : list triplet) : Prop :=
  v <> []
  /\ ((In k (extract_entities_from_scene_graph graph)
       /\ v = retrieve_entity_knowledge k max_k)
      \/ exists s p o,
           k = relation_key s p o /\ v = retrieve_relationship_knowledge s p o).

End Retrieval.

(** A scene graph that names the nodule twice and has no relationships. *)
Definition nodule_graph : scene_graph :=
  {| sg_objects :=
       Some [ {| obj_id := Some "o1"; obj_type := Some "lung nodule";
                 obj_attributes := Some [("size", "2cm")] |};
              {| obj_id := Some "o2"; obj_type := Some "lung nodule";
                 obj_attributes := None |} ];
     sg_conditions := Some [];
     sg_relationships := None |}.

(** One text is a substring of the other, letter case aside. *)
Definition ci_substring_match (a b : string) : bool :=
  PyStr.contains (PyStr.lower a) (PyStr.lower b)
  || PyStr.contains (PyStr.lower b) (PyStr.lower a).

(** The relationship query as the specification words it: the first
    five, in store order, of the triplets whose predicate matches the
    query predicate and whose subject or object matches the query's. *)
Definition relationship_spec (store : list triplet) (subject predicate obj : string)
  : list triplet :=
  firstn 5
    (filter
       (fun t =>
          ci_substring_match predicate (t_predicate t)
          && (ci_substring_match subject (t_subject t)
              || ci_substring_match obj (t_object t)))
       store).

(** Ascending order of positions by score. *)
Definition ascending (a : list Q) (i j : nat) : Prop :=
  (nth i a 0 <= nth j a 0)%Q.

(** Position [i] may be ranked before position [j]: its score is not
    lower. *)
Definition ranked_before (sims : list Q) (i j : nat) : Prop :=
  (nth j sims 0 <= nth i sims 0)%Q.

(** A result in descending order of score. *)
Definition descending (found : list (string * Q)) : Prop :=
  StronglySorted (fun x y => (snd y <= snd x)%Q) found.

(** The store of the specification's scenario. *)
Definition lung_located : triplet := ("lung nodule", "located_in", "right lung").
Definition lung_size : triplet := ("lung nodule", "has_size", "2cm").
Definition scenario_store : list triplet := [lung_located; lung_size].

(** A store whose two entities have the same normalized text. *)
Definition twin_store : list triplet := [("left_lung", "same_as", "left:lung")].

(** The retriever over a store and the index built from it. *)
Definition load (store : list triplet) : KnowledgeBaseRetriever :=
  {| triplets := store; entity_index := create_entity_index store |}.

(** A vectorizer for examples: 1 for equal texts, 0 otherwise; equal
    values keep the order of their positions. *)
Definition exact_match : Vectorizer :=
  {| tfidf_cosine := fun _ q e => if String.eqb q e then 1%Q else 0%Q;
     argsort_ties := fun _ _ _ => true |}.

(** A vectorizer for examples with a middle score: 1 for equal texts,
    1/2 when one text contains the other, 0 otherwise. *)
Definition containment_match : Vectorizer :=
  {| tfidf_cosine := fun _ q e =>
       if String.eqb q e then 1%Q
       else if PyStr.contains q e || PyStr.contains e q then (1 # 2)%Q
       else 0%Q;
     argsort_ties := fun _ _ _ => true |}.

(** A store whose two entities are "lung nodule" and "lung". *)
Definition graded_store : list triplet := [("lung nodule", "part_of", "lung")].

End Retriever.

(* ------------------------------------------------------------------ *)
(** ** utils/output_utils.py *)

Module OutputUtils.

Record entry : Type := {
  index : Z;
  question : string;
  ground_truth : string;
  prediction : string
}.

(** The file at [output_path]: [None] when it does not exist, else the
    JSON array it holds. *)
Definition ledger_file : Type := option (list entry).

Definition load_results (output : ledger_file) : list entry :=
  match output with
  | Some results => results
  | None => []
  end.

(** The loop [for i, r in enumerate(results)]: the first entry with the
    index is replaced; the flag is [found]. *)
Fixpoint replace_first (idx : Z) (result : entry) (results : list entry)
  : list entry * bool :=
  match results with
  | [] => ([], false)
  | r :: rest =>
      if (index r =? idx)%Z then (result :: rest, true)
      else let (rest', found) := replace_first idx result rest in (r :: rest', found)
  end.

(** [results.sort(key=lambda x: x["index"])] *)
Definition sort_by_index (results : list entry) : list entry :=
  PySeq.stable_sort (fun a b => (index a <=? index b)%Z) results.

(** [format_json_out_put]: the file after a call that goes through,
    that is when the file opens, holds a JSON array of entries and is
    written back; [SMRAgents.save] is the call with its failures. *)
Definition format_json_out_put (q truth pred : string) (idx : Z)
  (output : ledger_file) : ledger_file :=
  let result :=
    {| index := idx; question := q; ground_truth := truth; prediction := pred |} in
  let results := load_results output in
  let (results1, found) := replace_first idx result results in
  let results2 := if found then results1 else results1 ++ [result] in
  Some (sort_by_index results2).

(** [range(total_count)] *)
Definition range (total_count : nat) : list Z := map Z.of_nat (seq 0 total_count).

Definition filter_finished (total_count : nat) (output : ledger_file) : list Z :=
  match output with
  | None => range total_count
  | Some results =>
      filter (fun i => negb (existsb (Z.eqb i) (map index results))) (range total_count)
  end.

(** The entries of the file that carry a given index. *)
Definition entries_at (idx : Z) (output : ledger_file) : list entry :=
  filter (fun r => (index r =? idx)%Z) (load_results output).

(** The array that [format_json_out_put] sorts and writes. *)
Definition upserted (result : entry) (results : list entry) : list entry :=
  let (results1, found) := replace_first (index result) result results in
  if found then results1 else results1 ++ [result].

(** A ledger is keyed by index: no two entries of the file carry the
    same index. *)
Definition ledger_state (output : ledger_file) : Prop :=
  NoDup (map index (load_results output)).

(** The files the code produces: the absent file, and what a call of
    [format_json_out_put] makes of such a file. *)
Inductive written : ledger_file -> Prop :=
| written_absent : written None
| written_call (q truth pred : string) (idx : Z) (output : ledger_file) :
    written output -> written (format_json_out_put q truth pred idx output).

(** The stored array is in ascending order of index. *)
Definition sorted_by_index (output : ledger_file) : Prop :=
  StronglySorted (fun a b => (index a <= index b)%Z) (load_results output).

(** [os.path.join("outputs", filename)] on a POSIX system: an absolute
    second part stands alone. *)
Definition join_outputs (filename : string) : string :=
  if PyStr.starts_with "/" filename then filename
  else ("outputs/" ++ filename)%string.

Definition format_output_filepath (language_model visual_model method dataset : string)
  : string :=
  join_outputs
    (dataset ++ "_" ++ method ++ "_" ++ language_model ++ "_" ++ visual_model
     ++ "_results.json")%string.

(** The file holds an entry with the index: [idx in finished_indices]. *)
Definition recorded (idx : Z) (output : ledger_file) : bool :=
  existsb (Z.eqb idx) (map index (load_results output)).

End OutputUtils.

(* ------------------------------------------------------------------ *)
(** ** utils/register.py *)

Module Register.

Section Registry.
Variable class : Type.

(** [Registry._registry]: a dict from names to classes. *)
Definition registry : Type := PyDict.dict class.

(** [Registry()] *)
Definition empty : registry := [].

(** [Registry.register] *)
Definition register (name : string) (cls : class) (r : registry) : registry :=
  PyDict.set name cls r.

(** [Registry.get_class]: the class, or the message of the [ValueError]
    raised for a name that is not registered. *)
Definition get_class (name : string) (r : registry) : string + class :=
  match PyDict.get name r with
  | Some cls => inr cls
  | None => inl ("Class " ++ name ++ " not registered")%string
  end.

End Registry.

End Register.

(* ------------------------------------------------------------------ *)
(** ** scripts/SMRAgents.py *)

Module SMRAgents.
Import OutputUtils.

(** The prompts of [prompts/prompts.py], by the function that builds
    them and its arguments; the wording is pure formatting.  The
    [ff_print] messages of [SMRAgents] change nothing and are left out. *)
Inductive prompt : Type :=
| description_prompt (question : string)
| expert_consultation_prompt (question description : string)
| expert_opinions_prompt (question description experts_tasks : string)
| expert_diagnosis_prompt (question description experts_opinions : string)
| expert_evaluation_prompt
    (question description diagnosis_reasoning experts_opinions : string)
| expert_evaluation_followup_prompt
    (question description updated_experts_opinions diagnosis_reasoning : string)
| specialists_rethink_prompt (question description feedback : string)
| diagnostic_reassessment_prompt
    (question description updated_experts_opinions : string)
| integration_summary_prompt (question description expert_opinions : string).

(** A raised exception: an [Exception] raised by a collaborator, with
    [str(e)]; the [UnboundLocalError] of reading a local that was never
    assigned; or a [BaseException] that is no [Exception], such as
    [KeyboardInterrupt] or [SystemExit]. *)
Inductive exn : Type :=
| Raised (message : string)
| UnboundLocalError (name : string)
| BaseRaised (message : string).

Definition exn_str (e : exn) : string :=
  match e with
  | Raised message => message
  | UnboundLocalError name =>
      ("cannot access local variable '" ++ name
       ++ "' where it is not associated with a value")%string
  | BaseRaised message => message
  end.

(** [isinstance(e, Exception)] *)
Definition is_exception (e : exn) : bool :=
  match e with
  | BaseRaised _ => false
  | _ => true
  end.

(** What [self.dataset[idx]] unpacks to. *)
Record item : Type := {
  img : string;
  item_question : string;
  item_answer : string;
  img_path : string
}.

(** The result of [validate_scene_graph]. *)
Record validation : Type := {
  is_valid : bool;
  errors : list string;
  warnings : list string
}.

(** What [SMRAgents] is given and calls: the dataset, the two model
    engines, the scene graph refiner ([methods/scene_graph_refiner.py]),
    the regular-expression search of [update_specialist_opinions],
    [args.max_retries] and the file system under the ledger.  [world] is
    their state; a call returns a value or raises, and moves the world.
    [ledger_fault f w] is what the file system does at a call that reads
    or writes the ledger file [f]: [None] when the call goes through,
    [Some (e, f')] when [open], [json.load] or [json.dump] raises [e] and
    the file is left as [f']. *)
Class Collaborators : Type := {
  world : Type;
  ledger_fault : ledger_file -> world -> option (exn * ledger_file) * world;
  dataset_len : nat;
  dataset_getitem : Z -> world -> (exn + item) * world;
  v_get_response : prompt -> string -> string -> world -> (exn + string) * world;
  l_get_response : prompt -> world -> (exn + string) * world;
  has_refiner : bool;
  refine_scene_graph : string -> world -> (exn + string) * world;
  validate_scene_graph : string -> world -> (exn + validation) * world;
  findall_experts : string -> list string;
  max_retries : nat
}.

Definition newline : string := String (ascii_of_nat 10) EmptyString.

Definition consistent_phrase : string := "all opinions are consistent".
Definition specialists_marker : string := "Feedback to Specialist Experts:".
Definition diagnostic_marker : string := "Feedback to Diagnostic Specialist:".

Definition max_iterations : nat := 3.

(** A prompt of the review step. *)
Definition is_review (p : prompt) : bool :=
  match p with
  | expert_evaluation_prompt _ _ _ _ => true
  | expert_evaluation_followup_prompt _ _ _ _ => true
  | _ => false
  end.

(** The number of review passes in a list of prompts. *)
Definition review_passes (ps : list prompt) : nat :=
  List.length (filter is_review ps).

Section Agents.
Context {C : Collaborators}.

(** The state a run moves: the collaborators' world, the prompts sent to
    the language engine so far, the ledger file, and the locals
    [question] and [answer] of [run] ([None] until first assigned). *)
Record state : Type := {
  ext : world;
  sent : list prompt;
  output_file : ledger_file;
  question_answer : option (string * string)
}.

(** Computations that read and write the state and may raise. *)
Definition M (A : Type) : Type := state -> (exn + A) * state.

Definition ret {A} (a : A) : M A := fun st => (inr a, st).

Definition raise {A} (e : exn) : M A := fun st => (inl e, st).

Definition bind {A B} (m : M A) (k : A -> M B) : M B :=
  fun st =>
    match m st with
    | (inr a, st') => k a st'
    | (inl e, st') => (inl e, st')
    end.

(** [try: body except Exception as e: handler e]; an exception that is
    no [Exception] passes through. *)
Definition try_except {A} (body : M A) (handler : exn -> M A) : M A :=
  fun st =>
    match body st with
    | (inr a, st') => (inr a, st')
    | (inl e, st') => if is_exception e then handler e st' else (inl e, st')
    end.

Notation "x <- m ;; k" := (bind m (fun x => k))
  (at level 61, m at next level, right associativity).
Notation "' pat <- m ;; k" := (bind m (fun x => match x with pat => k end))
  (at level 61, pat pattern, m at next level, right associativity).

(** A call of a collaborator that only moves the world. *)
Definition call {A} (f : world -> (exn + A) * world) : M A :=
  fun st =>
    let (r, w) := f (ext st) in
    (r, {| ext := w; sent := sent st; output_file := output_file st;
           question_answer := question_answer st |}).

(** [self.l_engine.get_response(p)]; the prompt is recorded as sent. *)
Definition l_engine (p : prompt) : M string :=
  fun st =>
    let (r, w) := l_get_response p (ext st) in
    (r, {| ext := w; sent := sent st ++ [p]; output_file := output_file st;
           question_answer := question_answer st |}).

(** [format_json_out_put(..., self.output_file_path)]: the file is
    rewritten, unless the file system raises. *)
Definition save (q truth pred : string) (idx : Z) : M unit :=
  fun st =>
    let (fault, w) := ledger_fault (output_file st) (ext st) in
    match fault with
    | None =>
        (inr tt,
         {| ext := w; sent := sent st;
            output_file := format_json_out_put q truth pred idx (output_file st);
            question_answer := question_answer st |})
    | Some (e, f) =>
        (inl e,
         {| ext := w; sent := sent st; output_file := f;
            question_answer := question_answer st |})
    end.

(** [filter_finished(len(self.dataset), self.output_file_path)]: the
    file is read, unless the file system raises. *)
Definition todo : M (list Z) :=
  fun st =>
    let (fault, w) := ledger_fault (output_file st) (ext st) in
    match fault with
    | None =>
        (inr (filter_finished dataset_len (output_file st)),
         {| ext := w; sent := sent st; output_file := output_file st;
            question_answer := question_answer st |})
    | Some (e, f) =>
        (inl e,
         {| ext := w; sent := sent st; output_file := f;
            question_answer := question_answer st |})
    end.

(** The assignment of the locals [question] and [answer]. *)
Definition assign_question_answer (q a : string) : M unit :=
  fun st =>
    (inr tt,
     {| ext := ext st; sent := sent st; output_file := output_file st;
        question_answer := Some (q, a) |}).

(** Reading the locals [question] and [answer]. *)
Definition read_question_answer : M (string * string) :=
  fun st =>
    match question_answer st with
    | Some qa => (inr qa, st)
    | None => (inl (UnboundLocalError "question"), st)
    end.

Definition generate_and_refine_scene_graph (question image path : string)
  : M string :=
  initial_scene_graph <- call (v_get_response (description_prompt question) image path) ;;
  if has_refiner then
    refined_scene_graph <- call (refine_scene_graph initial_scene_graph) ;;
    validation_results <- call (validate_scene_graph refined_scene_graph) ;;
    if negb (is_valid validation_results) then ret initial_scene_graph
    else ret refined_scene_graph
  else ret initial_scene_graph.

(** The loop of [update_specialist_opinions] over the specialists found
    in the current opinions. *)
Fixpoint update_each (question description feedback : string)
  (specialists : list string) (updated_opinions_list : list string)
  : M (list string) :=
  match specialists with
  | [] => ret updated_opinions_list
  | specialist_text :: rest =>
      let specialist_name := PyStr.strip (PyStr.first_line specialist_text) in
      if PyStr.contains specialist_name feedback then
        updated_opinion <-
          l_engine (specialists_rethink_prompt question description feedback) ;;
        update_each question description feedback rest
          (updated_opinions_list
             ++ [("Expert: " ++ specialist_name ++ newline ++ updated_opinion)%string])
      else
        update_each question description feedback rest
          (updated_opinions_list ++ [("Expert: " ++ specialist_text)%string])
  end.

Definition update_specialist_opinions
  (question description current_opinions feedback : string) : M string :=
  updated_opinions_list <-
    update_each question description feedback (findall_experts current_opinions) [] ;;
  ret (PyStr.join (newline ++ newline)%string updated_opinions_list).

(** The prompt of the review step of an iteration. *)
Definition review_prompt (question description experts_opinions expert_diagnosis : string)
  (iteration : nat) : prompt :=
  if Nat.eqb iteration 0
  then expert_evaluation_prompt question description expert_diagnosis experts_opinions
  else expert_evaluation_followup_prompt question description experts_opinions
         expert_diagnosis.

(** [expert_evaluation[feedback_start:feedback_end].strip()] *)
Definition feedback_slice (expert_evaluation : string) : string :=
  let feedback_start :=
    match PyStr.find specialists_marker expert_evaluation with
    | Some i => i
    | None => 0%nat
    end in
  let feedback_end :=
    match PyStr.find diagnostic_marker expert_evaluation with
    | Some i => i
    | None => String.length expert_evaluation
    end in
  PyStr.strip (PyStr.slice feedback_start feedback_end expert_evaluation).

Definition process_feedback_iteration
  (question description experts_opinions expert_diagnosis : string)
  (iteration : nat) : M (string * string * bool) :=
  expert_evaluation <-
    l_engine (review_prompt question description experts_opinions expert_diagnosis
                iteration) ;;
  if PyStr.contains consistent_phrase (PyStr.lower expert_evaluation) then
    ret (experts_opinions, expert_diagnosis, false)
  else
    experts_opinions1 <-
      (if PyStr.contains specialists_marker expert_evaluation then
         let feedback_to_specialists := feedback_slice expert_evaluation in
         if String.eqb feedback_to_specialists "" then ret experts_opinions
         else update_specialist_opinions question description experts_opinions
                feedback_to_specialists
       else ret experts_opinions) ;;
    expert_diagnosis1 <-
      (if PyStr.contains diagnostic_marker expert_evaluation then
         l_engine (diagnostic_reassessment_prompt question description experts_opinions1)
       else ret expert_diagnosis) ;;
    ret (experts_opinions1, expert_diagnosis1, true).

(** The loop [for iteration in range(max_iterations)] of [run], with
    its [break]; [iterations] are the values still to be taken. *)
Fixpoint review_loop (question description : string) (iterations : list nat)
  (experts_opinions expert_diagnosis : string) : M (string * string) :=
  match iterations with
  | [] => ret (experts_opinions, expert_diagnosis)
  | iteration :: rest =>
      '(experts_opinions1, expert_diagnosis1, should_continue) <-
        process_feedback_iteration question description experts_opinions
          expert_diagnosis iteration ;;
      if negb should_continue then ret (experts_opinions1, expert_diagnosis1)
      else review_loop question description rest experts_opinions1 expert_diagnosis1
  end.

(** Step 6 of [run]: the integration summary of the final opinions. *)
Definition integrate (question description experts_opinions expert_diagnosis : string)
  : M string :=
  l_engine
    (integration_summary_prompt question description
       (experts_opinions ++ newline ++ newline ++ expert_diagnosis)%string).

(** Steps 5 and 6 of [run] from a given point of the review loop. *)
Definition review_and_integrate (question description : string)
  (iterations : list nat) (experts_opinions expert_diagnosis : string) : M string :=
  '(experts_opinions1, expert_diagnosis1) <-
    review_loop question description iterations experts_opinions expert_diagnosis ;;
  integrate question description experts_opinions1 expert_diagnosis1.

(** The body of the [try] of [run] for the item at [idx]. *)
Definition process_item (idx : Z) : M unit :=
  it <- call (dataset_getitem idx) ;;
  _ <- assign_question_answer (item_question it) (item_answer it) ;;
  let question := item_question it in
  description <- generate_and_refine_scene_graph question (img it) (img_path it) ;;
  expert_consultation <- l_engine (expert_consultation_prompt question description) ;;
  experts_opinions <-
    l_engine (expert_opinions_prompt question description expert_consultation) ;;
  expert_diagnosis <-
    l_engine (expert_diagnosis_prompt question description experts_opinions) ;;
  final_answer <-
    review_and_integrate question description (seq 0 max_iterations)
      experts_opinions expert_diagnosis ;;
  save question (item_answer it) final_answer idx.

(** The [except Exception as e] clause of [run]. *)
Definition save_error (idx : Z) (e : exn) : M unit :=
  '(question, answer) <- read_question_answer ;;
  save question answer ("Error: " ++ exn_str e)%string idx.

(** One pass of the loop over the to-do list: the [try] statement. *)
Definition run_item (idx : Z) : M unit :=
  try_except (process_item idx) (save_error idx).

Fixpoint run_items (todo_list : list Z) : M unit :=
  match todo_list with
  | [] => ret tt
  | idx :: rest => _ <- run_item idx ;; run_items rest
  end.

(** The loop [for round_count in range(self.max_retries)] of [run]. *)
Fixpoint run_rounds (rounds : nat) : M unit :=
  match rounds with
  | O => ret tt
  | S rounds' =>
      todo_list <- todo ;;
      match todo_list with
      | [] => ret tt
      | _ => _ <- run_items todo_list ;; run_rounds rounds'
      end
  end.

Definition run : M unit := run_rounds max_retries.

(** The computation sends at least [lo] and at most [hi] review prompts,
    whether it returns or raises. *)
Definition passes_between {A} (lo hi : nat) (m : M A) : Prop :=
  forall st,
    (review_passes (sent st) + lo <= review_passes (sent (snd (m st))))%nat
    /\ (review_passes (sent (snd (m st))) <= review_passes (sent st) + hi)%nat.

(** The state after the language engine took prompt [p] and moved the
    world to [w]. *)
Definition after_prompt (p : prompt) (w : world) (st : state) : state :=
  {| ext := w; sent := sent st ++ [p]; output_file := output_file st;
     question_answer := question_answer st |}.

(** The state [run] starts from. *)
Definition initial_state (w : world) (output : ledger_file) : state :=
  {| ext := w; sent := []; output_file := output; question_answer := None |}.

End Agents.

(** Collaborators for examples: the dataset is a list of items, [None]
    for an item whose loading raises; the language engine answers by
    [reply]; there is no refiner; the file system never fails. *)
Definition scripted (items : list (option item)) (reply : prompt -> exn + string)
  : Collaborators :=
  {| world := unit;
     ledger_fault := fun _ w => (None, w);
     dataset_len := List.length items;
     dataset_getitem := fun idx w =>
       (match nth_error items (Z.to_nat idx) with
        | Some (Some it) => inr it
        | _ => inl (Raised "cannot load item")
        end, w);
     v_get_response := fun _ _ _ w => (inr "scene graph", w);
     l_get_response := fun p w => (reply p, w);
     has_refiner := false;
     refine_scene_graph := fun g w => (inr g, w);
     validate_scene_graph := fun _ w =>
       (inr {| is_valid := true; errors := []; warnings := [] |}, w);
     findall_experts := fun _ => [];
     max_retries := 1 |}.

(** An item of a dataset, and a language engine whose reviews find the
    opinions consistent. *)
Definition sample_item : item :=
  {| img := "image"; item_question := "Is there a nodule?"; item_answer := "yes";
     img_path := "img/0.png" |}.

Definition agreeing_reply (p : prompt) : exn + string :=
  if is_review p then inr "Review: All opinions are consistent."
  else inr "text".

(** [st'] has what [st] had: the locals [question] and [answer] stay
    assigned once they are, and the ledger file keeps the indices it
    holds. *)
Definition extends {C : Collaborators} (st st' : state) : Prop :=
  (question_answer st <> None -> question_answer st' <> None)
  /\ (forall j, recorded j (output_file st) = true ->
                recorded j (output_file st') = true).

(** A computation that only adds, whether it returns or raises. *)
Definition grows {C : Collaborators} {A} (m : M A) : Prop :=
  forall st, extends st (snd (m st)).

(** A computation that leaves the ledger file alone. *)
Definition keeps_file {C : Collaborators} {A} (m : M A) : Prop :=
  forall st, output_file (snd (m st)) = output_file st.

(** A computation that, when it returns, has made one call of
    [format_json_out_put] under [idx], and when it raises has left the
    ledger file alone. *)
Definition writes_once {C : Collaborators} {A} (idx : Z) (m : M A) : Prop :=
  forall st,
    match fst (m st) with
    | inr _ =>
        exists q truth pred,
          output_file (snd (m st))
          = format_json_out_put q truth pred idx (output_file st)
    | inl _ => output_file (snd (m st)) = output_file st
    end.

(** A working file system: no call that reads or writes the ledger
    raises. *)
Definition reliable_files {C : Collaborators} : Prop :=
  forall f w, fst (ledger_fault f w) = None.

(** A collaborator's call that raises nothing but an [Exception]. *)
Definition raises_exceptions {C : Collaborators} {A}
  (f : world -> (exn + A) * world) : Prop :=
  forall w e, fst (f w) = inl e -> is_exception e = true.

(** No collaborator raises a [BaseException] that is no [Exception]:
    nobody interrupts the run and nothing exits the interpreter. *)
Definition only_exceptions {C : Collaborators} : Prop :=
  (forall idx, raises_exceptions (dataset_getitem idx))
  /\ (forall p image path, raises_exceptions (v_get_response p image path))
  /\ (forall p, raises_exceptions (l_get_response p))
  /\ (forall g, raises_exceptions (refine_scene_graph g))
  /\ (forall g, raises_exceptions (validate_scene_graph g)).

(** A computation that raises nothing but an [Exception]. *)
Definition catchable {C : Collaborators} {A} (m : M A) : Prop :=
  forall st e, fst (m st) = inl e -> is_exception e = true.

(** Collaborators for examples with a scene graph refiner: it marks the
    graph as refined, and validation accepts the graphs that [accepted]
    does; the dataset is empty and the file system never fails. *)
Definition refining (accepted : string -> bool) : Collaborators :=
  {| world := unit;
     ledger_fault := fun _ w => (None, w);
     dataset_len := 0;
     dataset_getitem := fun _ w => (inl (Raised "cannot load item"), w);
     v_get_response := fun _ _ _ w => (inr "scene graph", w);
     l_get_response := fun _ w => (inr "text", w);
     has_refiner := true;
     refine_scene_graph := fun g w => (inr (g ++ ", refined")%string, w);
     validate_scene_graph := fun g w =>
       (inr {| is_valid := accepted g;
               errors := if accepted g then [] else ["not a scene graph"];
               warnings := [] |}, w);
     findall_experts := fun _ => [];
     max_retries := 1 |}.

(** A review text that is neither a verdict of consistency nor carries
    one of the two feedback sections. *)
Definition undecided (evaluation : string) : bool :=
  negb (PyStr.contains consistent_phrase (PyStr.lower evaluation))
  && negb (PyStr.contains specialists_marker evaluation)
  && negb (PyStr.contains diagnostic_marker evaluation).

(** A language engine whose reviews never decide. *)
Definition vague_reply (p : prompt) : exn + string :=
  if is_review p then inr "The opinions differ in places." else inr "text".

(** A language engine whose review puts the section for the diagnostic
    specialist before the one for the specialist experts. *)
Definition swapped_reply (p : prompt) : exn + string :=
  if is_review p
  then inr "Feedback to Diagnostic Specialist: recheck. Feedback to Specialist Experts: Radiologist, look again."
  else inr "text".

(** Collaborators for examples whose opinions name the given
    specialists. *)
Definition panel (specialists : list string) (reply : prompt -> exn + string)
  : Collaborators :=
  {| world := unit;
     ledger_fault := fun _ w => (None, w);
     dataset_len := 0;
     dataset_getitem := fun _ w => (inl (Raised "cannot load item"), w);
     v_get_response := fun _ _ _ w => (inr "scene graph", w);
     l_get_response := fun p w => (reply p, w);
     has_refiner := false;
     refine_scene_graph := fun g w => (inr g, w);
     validate_scene_graph := fun _ w =>
       (inr {| is_valid := true; errors := []; warnings := [] |}, w);
     findall_experts := fun _ => specialists;
     max_retries := 1 |}.

End SMRAgents.

(* ================================================================== *)
(** * Properties *)

(** ** Slices and the stable sort *)

Module PySeqFacts.
Import PySeq.

Lemma slice_to_nonneg {A} (stop : Z) (l : list A) :
  (0 <= stop)%Z -> slice_to stop l = firstn (Z.to_nat stop) l.
Proof.
  intros Hstop. unfold slice_to.
  destruct (stop <? 0)%Z eqn:E; [apply Z.ltb_lt in E; lia|].
  destruct (Z.le_ge_cases stop (Z.of_nat (List.length l))) as [Hle|Hge].
  - now rewrite Z.min_l.
  - rewrite Z.min_r by lia. rewrite Nat2Z.id.
    rewrite firstn_all. symmetry. apply firstn_all2. lia.
Qed.

Lemma slice_to_length {A} (stop : Z) (l : list A) :
  (0 <= stop)%Z -> (Z.of_nat (List.length (slice_to stop l)) <= stop)%Z.
Proof.
  intros Hstop. rewrite slice_to_nonneg by assumption.
  rewrite length_firstn. lia.
Qed.

Lemma slice_from_zero {A} (l : list A) : slice_from 0 l = l.
Proof.
  unfold slice_from. simpl. now rewrite Z.min_l by lia.
Qed.

Lemma slice_from_last {A} (k : Z) (l : list A) :
  (1 <= k)%Z -> slice_from (- k) l = skipn (List.length l - Z.to_nat k) l.
Proof.
  intros Hk. unfold slice_from.
  destruct (- k <? 0)%Z eqn:E; [|apply Z.ltb_ge in E; lia].
  f_equal. lia.
Qed.

Lemma slice_from_last_length {A} (k : Z) (l : list A) :
  (1 <= k)%Z -> (Z.of_nat (List.length (slice_from (- k) l)) <= k)%Z.
Proof.
  intros Hk. rewrite slice_from_last by assumption.
  rewrite length_skipn. lia.
Qed.

Lemma slice_from_incl {A} (start : Z) (l : list A) (x : A) :
  In x (slice_from start l) -> In x l.
Proof.
  unfold slice_from. intros H.
  rewrite <- (firstn_skipn (Z.to_nat
    (if (start <? 0)%Z then Z.max 0 (start + Z.of_nat (List.length l))
     else Z.min start (Z.of_nat (List.length l)))) l).
  apply in_or_app. now right.
Qed.

Section StableSort.
Variables (A : Type) (leb : A -> A -> bool).

Lemma insert_sorted_perm (x : A) (l : list A) :
  Permutation (x :: l) (insert_sorted leb x l).
Proof.
  induction l as [|y l IH]; simpl.
  - apply Permutation_refl.
  - destruct (leb y x).
    + eapply Permutation_trans; [apply perm_swap|]. now apply perm_skip.
    + apply Permutation_refl.
Qed.

Lemma fold_insert_perm (l acc : list A) :
  Permutation (rev l ++ acc)
    (fold_left (fun acc x => insert_sorted leb x acc) l acc).
Proof.
  revert acc. induction l as [|x l IH]; intros acc; simpl.
  - apply Permutation_refl.
  - eapply Permutation_trans; [|apply IH].
    rewrite <- app_assoc. simpl.
    apply Permutation_app_head, insert_sorted_perm.
Qed.

Lemma stable_sort_perm (l : list A) : Permutation l (stable_sort leb l).
Proof.
  unfold stable_sort.
  eapply Permutation_trans; [|apply fold_insert_perm].
  rewrite app_nil_r. apply Permutation_rev.
Qed.

(** Sortedness.  [before] is the order the result is to have;
    [earlier] relates the elements of the input by position.  An element
    goes behind those not greater than it, which came earlier. *)
Variables before earlier : A -> A -> Prop.
Hypothesis before_trans : forall x y z, before x y -> before y z -> before x z.
Hypothesis leb_true_before :
  forall x y, earlier y x -> leb y x = true -> before y x.
Hypothesis leb_false_before : forall x y, leb y x = false -> before x y.

Lemma insert_sorted_sorted (x : A) (l : list A) :
  (forall y, In y l -> earlier y x) ->
  StronglySorted before l ->
  StronglySorted before (insert_sorted leb x l).
Proof.
  intros Hearlier Hs.
  induction Hs as [|y l Hs IH Hall]; simpl.
  - constructor; constructor.
  - destruct (leb y x) eqn:E.
    + constructor.
      * apply IH. intros z Hz. apply Hearlier. now right.
      * rewrite Forall_forall in *. intros z Hz.
        apply (Permutation_in _ (Permutation_sym (insert_sorted_perm x l))) in Hz.
        destruct Hz as [<-|Hz].
        -- apply leb_true_before; [apply Hearlier; now left|assumption].
        -- now apply Hall.
    + constructor; [constructor; assumption|].
      constructor; [now apply leb_false_before|].
      rewrite Forall_forall in *. intros z Hz.
      apply (before_trans x y z); [now apply leb_false_before|now apply Hall].
Qed.

Lemma fold_insert_sorted (l acc : list A) :
  StronglySorted before acc ->
  StronglySorted earlier l ->
  (forall y x, In y acc -> In x l -> earlier y x) ->
  StronglySorted before (fold_left (fun acc x => insert_sorted leb x acc) l acc).
Proof.
  revert acc. induction l as [|x l IH]; intros acc Hacc Hl Hcross; simpl.
  - assumption.
  - apply StronglySorted_inv in Hl. destruct Hl as [Hl Hx].
    apply IH; [|assumption|].
    + apply insert_sorted_sorted; [|assumption].
      intros y Hy. apply Hcross; [assumption|now left].
    + intros y z Hy Hz.
      apply (Permutation_in _ (Permutation_sym (insert_sorted_perm x acc))) in Hy.
      destruct Hy as [<-|Hy].
      * rewrite Forall_forall in Hx. now apply Hx.
      * apply Hcross; [assumption|now right].
Qed.

Lemma stable_sort_sorted (l : list A) :
  StronglySorted earlier l -> StronglySorted before (stable_sort leb l).
Proof.
  intros Hl. unfold stable_sort.
  apply fold_insert_sorted; [constructor|assumption|].
  intros y x [].
Qed.

End StableSort.

End PySeqFacts.

(** ** Lists *)

Module ListFacts.

Lemma fold_left_append_if {A} (f : A -> bool) (l acc : list A) :
  fold_left (fun acc x => if f x then acc ++ [x] else acc) l acc = acc ++ filter f l.
Proof.
  revert acc. induction l as [|x l IH]; intros acc; simpl.
  - now rewrite app_nil_r.
  - rewrite IH. destruct (f x); [now rewrite <- app_assoc|reflexivity].
Qed.

Lemma fold_left_append_nested {A} (f g : A -> bool) (l acc : list A) :
  fold_left (fun acc x => if f x then if g x then acc ++ [x] else acc else acc) l acc
  = acc ++ filter (fun x => f x && g x) l.
Proof.
  revert acc. induction l as [|x l IH]; intros acc; simpl.
  - now rewrite app_nil_r.
  - rewrite IH. destruct (f x), (g x); simpl; try reflexivity.
    now rewrite <- app_assoc.
Qed.

Lemma filter_perm {A} (f : A -> bool) (l l' : list A) :
  Permutation l l' -> Permutation (filter f l) (filter f l').
Proof.
  induction 1 as [|x l l' _ IH|x y l|l l' l'' _ IH1 _ IH2]; simpl.
  - constructor.
  - destruct (f x); [now constructor|assumption].
  - destruct (f x), (f y); try apply Permutation_refl. apply perm_swap.
  - now apply Permutation_trans with (filter f l').
Qed.

Lemma filter_or_length {A} (f g : A -> bool) (l : list A) :
  (forall x, f x = true -> g x = false) ->
  List.length (filter (fun x => f x || g x) l)
  = (List.length (filter f l) + List.length (filter g l))%nat.
Proof.
  intros Hfg. induction l as [|x l IH]; simpl; [reflexivity|].
  destruct (f x) eqn:Ef; simpl.
  - rewrite (Hfg x Ef). simpl. now rewrite IH.
  - destruct (g x); simpl; rewrite IH; lia.
Qed.

Lemma filter_eqb_absent (a : string) (l : list string) :
  ~ In a l -> filter (fun k => String.eqb k a) l = [].
Proof.
  induction l as [|x l IH]; simpl; intros Hout; [reflexivity|].
  destruct (String.eqb_spec x a) as [->|Hne]; [exfalso; apply Hout; now left|].
  apply IH. intros Hin. apply Hout. now right.
Qed.

Lemma filter_eqb_NoDup (a : string) (l : list string) :
  NoDup l -> In a l -> filter (fun k => String.eqb k a) l = [a].
Proof.
  induction 1 as [|x l Hx Hl IH]; intros Hin; [contradiction|].
  simpl. destruct (String.eqb_spec x a) as [->|Hne].
  - f_equal. now apply filter_eqb_absent.
  - destruct Hin as [Heq|Hin]; [contradiction|]. now apply IH.
Qed.

Lemma map_fst_filter {A B} (f : A -> bool) (l : list (A * B)) :
  map fst (filter (fun kb => f (fst kb)) l) = filter f (map fst l).
Proof.
  induction l as [|[k b] l IH]; simpl; [reflexivity|].
  destruct (f k); simpl; now rewrite IH.
Qed.

Lemma StronglySorted_skipn {A} (R : A -> A -> Prop) (n : nat) (l : list A) :
  StronglySorted R l -> StronglySorted R (skipn n l).
Proof.
  revert l. induction n as [|n IH]; intros l Hl; [assumption|].
  destruct l as [|x l]; [assumption|].
  simpl. apply IH. now apply StronglySorted_inv in Hl.
Qed.

Lemma StronglySorted_snoc {A} (R : A -> A -> Prop) (l : list A) (x : A) :
  StronglySorted R l -> Forall (fun y => R y x) l -> StronglySorted R (l ++ [x]).
Proof.
  induction 1 as [|y l Hs IH Hall]; intros Hx; simpl.
  - constructor; constructor.
  - apply Forall_cons_iff in Hx. destruct Hx as [Hyx Hx].
    constructor; [now apply IH|].
    apply Forall_app. split; [assumption|]. now constructor.
Qed.

Lemma StronglySorted_rev {A} (R : A -> A -> Prop) (l : list A) :
  StronglySorted R l -> StronglySorted (fun x y => R y x) (rev l).
Proof.
  induction 1 as [|x l Hs IH Hall]; simpl; [constructor|].
  apply StronglySorted_snoc; [assumption|].
  apply Forall_rev. assumption.
Qed.

Lemma StronglySorted_filter {A} (R : A -> A -> Prop) (f : A -> bool) (l : list A) :
  StronglySorted R l -> StronglySorted R (filter f l).
Proof.
  induction 1 as [|x l Hs IH Hall]; simpl; [constructor|].
  destruct (f x); [|assumption].
  constructor; [assumption|].
  rewrite Forall_forall in *. intros y Hy. apply Hall.
  now apply filter_In in Hy.
Qed.

Lemma StronglySorted_map {A B} (R : B -> B -> Prop) (f : A -> B) (l : list A) :
  StronglySorted (fun x y => R (f x) (f y)) l -> StronglySorted R (map f l).
Proof.
  induction 1 as [|x l Hs IH Hall]; simpl; constructor; [assumption|].
  apply Forall_forall. intros y Hy. apply in_map_iff in Hy.
  destruct Hy as [z [<- Hz]]. rewrite Forall_forall in Hall. now apply Hall.
Qed.

Lemma StronglySorted_lt_seq (start len : nat) :
  StronglySorted lt (seq start len).
Proof.
  revert start. induction len as [|len IH]; intros start; simpl; constructor.
  - apply IH.
  - apply Forall_forall. intros y Hy. apply in_seq in Hy. lia.
Qed.

Lemma StronglySorted_impl_in {A} (R R' : A -> A -> Prop) (l : list A) :
  (forall x y, In x l -> In y l -> R x y -> R' x y) ->
  StronglySorted R l -> StronglySorted R' l.
Proof.
  intros Himpl Hs. induction Hs as [|x l Hs IH Hall]; constructor.
  - apply IH. intros y z Hy Hz. apply Himpl; now right.
  - rewrite Forall_forall in *. intros y Hy.
    apply Himpl; [now left|now right|now apply Hall].
Qed.

Lemma StronglySorted_and {A} (R R' : A -> A -> Prop) (l : list A) :
  StronglySorted R l -> StronglySorted R' l ->
  StronglySorted (fun x y => R x y /\ R' x y) l.
Proof.
  intros Hs. induction Hs as [|x l Hs IH Hall]; intros Hs'; constructor.
  - apply IH. now apply StronglySorted_inv in Hs'.
  - apply StronglySorted_inv in Hs'. destruct Hs' as [_ Hall'].
    rewrite Forall_forall in *. intros y Hy. split; [now apply Hall|now apply Hall'].
Qed.

(** Two sorted lists of the same elements are the same list, when the
    order tells the elements apart. *)
Lemma StronglySorted_unique {A} (R : A -> A -> Prop) (l1 l2 : list A) :
  (forall x y, In x l1 -> In y l1 -> R x y -> R y x -> x = y) ->
  Permutation l1 l2 ->
  StronglySorted R l1 -> StronglySorted R l2 -> l1 = l2.
Proof.
  revert l2. induction l1 as [|x l1 IH]; intros l2 Hanti Hperm Hs1 Hs2.
  - apply Permutation_nil in Hperm. now subst.
  - destruct l2 as [|y l2];
      [apply Permutation_sym, Permutation_nil in Hperm; discriminate|].
    apply StronglySorted_inv in Hs1. destruct Hs1 as [Hs1 Hall1].
    apply StronglySorted_inv in Hs2. destruct Hs2 as [Hs2 Hall2].
    rewrite Forall_forall in Hall1, Hall2.
    assert (Hxy : x = y).
    { assert (Hx : In x (y :: l2))
        by (apply (Permutation_in _ Hperm); now left).
      assert (Hy : In y (x :: l1))
        by (apply (Permutation_in _ (Permutation_sym Hperm)); now left).
      destruct Hx as [Hx|Hx]; [now symmetry|].
      destruct Hy as [Hy|Hy]; [assumption|].
      apply Hanti; [now left|now right|now apply Hall1|now apply Hall2]. }
    subst y. f_equal. apply Permutation_cons_inv in Hperm.
    apply IH; try assumption.
    intros u v Hu Hv. apply Hanti; now right.
Qed.

Lemma StronglySorted_any {A} (l : list A) : StronglySorted (fun _ _ => True) l.
Proof.
  induction l as [|x l IH]; constructor; [assumption|].
  apply Forall_forall. intros; exact I.
Qed.

Lemma filter_shifted_length {A} (p : A -> bool) (d x : A) (l : list A) (js : list nat) :
  List.length (filter (fun i => p (nth i (x :: l) d)) (map S js))
  = List.length (filter (fun i => p (nth i l d)) js).
Proof.
  induction js as [|j js IH]; [reflexivity|].
  cbn [map filter]. change (nth (S j) (x :: l) d) with (nth j l d).
  destruct (p (nth j l d)); cbn [List.length]; now rewrite IH.
Qed.

(** Filtering the positions of a list by the value they hold selects as
    many positions as filtering the list selects values. *)
Lemma filter_positions_length {A} (p : A -> bool) (d : A) (l : list A) :
  List.length (filter (fun i => p (nth i l d)) (seq 0 (List.length l)))
  = List.length (filter p l).
Proof.
  induction l as [|x l IH]; [reflexivity|].
  change (seq 0 (List.length (x :: l))) with (0%nat :: seq 1 (List.length l)).
  rewrite <- seq_shift. cbn [filter]. change (nth 0 (x :: l) d) with x.
  destruct (p x); cbn [List.length]; rewrite filter_shifted_length, IH; reflexivity.
Qed.

End ListFacts.

(** ** Dictionaries *)

Module PyDictFacts.
Import PyDict.

Lemma get_set_same {V} (k : string) (v : V) (d : dict V) :
  get k (set k v d) = Some v.
Proof.
  induction d as [|[k' v'] d IH]; simpl.
  - now rewrite String.eqb_refl.
  - destruct (String.eqb k k') eqn:E; simpl; rewrite E; [reflexivity|assumption].
Qed.

Lemma get_set_other {V} (k k' : string) (v : V) (d : dict V) :
  k <> k' -> get k' (set k v d) = get k' d.
Proof.
  intros Hne. induction d as [|[k0 v0] d IH]; simpl.
  - destruct (String.eqb_spec k' k); [congruence|reflexivity].
  - destruct (String.eqb_spec k k0) as [->|Hk]; simpl.
    + destruct (String.eqb_spec k' k0); [congruence|reflexivity].
    + destruct (String.eqb k' k0); [reflexivity|assumption].
Qed.

Lemma get_none_keys {V} (k : string) (d : dict V) :
  get k d = None <-> ~ In k (keys d).
Proof.
  induction d as [|[k' v'] d IH]; simpl.
  - tauto.
  - destruct (String.eqb_spec k k') as [->|Hk].
    + split; [discriminate|]. intros H. exfalso. apply H. now left.
    + rewrite IH. split; [intros H [Heq|Hin]; [congruence|contradiction]|tauto].
Qed.

Lemma get_some_keys {V} (k : string) (v : V) (d : dict V) :
  get k d = Some v -> In k (keys d).
Proof.
  intros Hget. destruct (in_dec string_dec k (keys d)) as [Hin|Hout]; [assumption|].
  apply get_none_keys in Hout. congruence.
Qed.

Lemma keys_set {V} (k : string) (v : V) (d : dict V) :
  keys (set k v d) = if mem k d then keys d else keys d ++ [k].
Proof.
  unfold mem. induction d as [|[k' v'] d IH]; simpl; [reflexivity|].
  destruct (String.eqb k k') eqn:E; simpl; [reflexivity|].
  rewrite IH. now destruct (get k d).
Qed.

Lemma keys_set_NoDup {V} (k : string) (v : V) (d : dict V) :
  NoDup (keys d) -> NoDup (keys (set k v d)).
Proof.
  intros Hd. rewrite keys_set. unfold mem.
  destruct (get k d) eqn:E; [assumption|].
  apply get_none_keys in E.
  apply NoDup_rev in Hd. rewrite <- (rev_involutive (keys d ++ [k])).
  apply NoDup_rev. rewrite rev_app_distr. simpl.
  constructor; [now rewrite <- in_rev|assumption].
Qed.

Lemma In_get {V} (k : string) (v : V) (d : dict V) :
  NoDup (keys d) -> In (k, v) d -> get k d = Some v.
Proof.
  induction d as [|[k' v'] d IH]; simpl; intros Hd Hin; [contradiction|].
  apply NoDup_cons_iff in Hd. destruct Hd as [Hk' Hd].
  destruct Hin as [Heq|Hin].
  - inversion Heq; subst. now rewrite String.eqb_refl.
  - destruct (String.eqb_spec k k') as [->|Hne]; [|now apply IH].
    exfalso. apply Hk'. apply (in_map fst) in Hin. exact Hin.
Qed.

End PyDictFacts.

(** ** The entity index *)

Module PreprocessorFacts.
Import Preprocessor PyDict PyDictFacts ListFacts.

Lemma triplet_eqb_eq (a b : triplet) : triplet_eqb a b = true <-> a = b.
Proof.
  destruct a as [[s p] o], b as [[s' p'] o'].
  unfold triplet_eqb, t_subject, t_predicate, t_object. simpl.
  rewrite !andb_true_iff. rewrite !String.eqb_eq.
  split; [intros [[-> ->] ->]; reflexivity|intros H; inversion H; auto].
Qed.

Lemma existsb_triplet (t : triplet) (b : list triplet) :
  existsb (triplet_eqb t) b = true <-> In t b.
Proof.
  rewrite existsb_exists. split.
  - intros [x [Hin Heq]]. apply triplet_eqb_eq in Heq. now subst.
  - intros Hin. exists t. split; [assumption|now apply triplet_eqb_eq].
Qed.

Lemma get_index_under (e k : string) (t : triplet) (idx : entity_index) :
  get k (index_under e t idx)
  = if String.eqb e k then Some (bucket e idx ++ [t]) else get k idx.
Proof.
  unfold index_under, bucket, mem.
  destruct (get e idx) as [b|] eqn:E.
  - rewrite E. destruct (String.eqb_spec e k) as [->|Hne].
    + apply get_set_same.
    + now apply get_set_other.
  - rewrite get_set_same. destruct (String.eqb_spec e k) as [->|Hne].
    + apply get_set_same.
    + rewrite !get_set_other by assumption. reflexivity.
Qed.

Lemma keys_index_under_NoDup (e : string) (t : triplet) (idx : entity_index) :
  NoDup (keys idx) -> NoDup (keys (index_under e t idx)).
Proof.
  intros Hd. unfold index_under. destruct (mem e idx).
  - destruct (get e idx); [now apply keys_set_NoDup|assumption].
  - rewrite get_set_same. now apply keys_set_NoDup, keys_set_NoDup.
Qed.

Lemma indexes_bucket (idx : entity_index) (store : list triplet) (k : string) :
  indexes idx store -> bucket k idx = bucket_of k store.
Proof.
  intros [_ H]. unfold bucket. rewrite H. now destruct (bucket_of k store).
Qed.

Lemma some_snoc {A} (l : list A) (x : A) :
  match l ++ [x] with [] => None | b => Some b end = Some (l ++ [x]).
Proof. now destruct l. Qed.

Lemma indexes_step (idx : entity_index) (store : list triplet) (t : triplet) :
  indexes idx store -> indexes (index_triplet idx t) (store ++ [t]).
Proof.
  intros Hinv. pose proof Hinv as [Hd Hget]. split.
  - unfold index_triplet. now apply keys_index_under_NoDup, keys_index_under_NoDup.
  - intros k. unfold index_triplet, bucket_of.
    rewrite flat_map_app. simpl. rewrite app_nil_r.
    fold (bucket_of k store).
    rewrite get_index_under. unfold bucket at 1. rewrite !get_index_under.
    fold (bucket (t_subject t) idx). fold (bucket (t_object t) idx).
    rewrite !(indexes_bucket idx store) by assumption.
    unfold occurrences.
    destruct (String.eqb_spec (t_object t) k) as [Ho|Ho].
    + destruct (String.eqb_spec (t_subject t) (t_object t)) as [Hso|Hso].
      * rewrite Hso, Ho, String.eqb_refl.
        rewrite <- app_assoc. simpl.
        now destruct (bucket_of k store).
      * destruct (String.eqb_spec (t_subject t) k) as [Hs|Hs]; [congruence|].
        simpl. rewrite Hget, Ho.
        now destruct (bucket_of k store).
    + destruct (String.eqb_spec (t_subject t) k) as [Hs|Hs].
      * rewrite Hs. simpl. now destruct (bucket_of k store).
      * simpl. rewrite app_nil_r. apply Hget.
Qed.

Lemma indexes_fold (ts store : list triplet) (idx : entity_index) :
  indexes idx store -> indexes (fold_left index_triplet ts idx) (store ++ ts).
Proof.
  revert store idx. induction ts as [|t ts IH]; intros store idx Hinv; simpl.
  - now rewrite app_nil_r.
  - replace (store ++ t :: ts) with ((store ++ [t]) ++ ts)
      by (now rewrite <- app_assoc).
    apply IH. now apply indexes_step.
Qed.

Lemma create_entity_index_indexes (store : list triplet) :
  indexes (create_entity_index store) store.
Proof.
  apply (indexes_fold store [] []). split; [constructor|reflexivity].
Qed.

Lemma in_bucket_of (k : string) (t : triplet) (store : list triplet) :
  In t (bucket_of k store) <-> In t store /\ (t_subject t = k \/ t_object t = k).
Proof.
  unfold bucket_of. rewrite in_flat_map. split.
  - intros [t' [Hin Hocc]]. unfold occurrences in Hocc.
    apply in_app_or in Hocc.
    destruct (String.eqb_spec (t_subject t') k), (String.eqb_spec (t_object t') k);
      simpl in Hocc; intuition (subst; auto).
  - intros [Hin Hk]. exists t. split; [assumption|].
    unfold occurrences. apply in_or_app.
    destruct Hk as [<-|<-]; rewrite String.eqb_refl; [left|right]; now left.
Qed.

Lemma get_create_some (store : list triplet) (k : string) (b : list triplet) :
  get k (create_entity_index store) = Some b -> b = bucket_of k store /\ b <> [].
Proof.
  destruct (create_entity_index_indexes store) as [_ H]. rewrite H.
  destruct (bucket_of k store); [discriminate|].
  intros Heq. inversion Heq. split; [reflexivity|discriminate].
Qed.

Lemma get_create_mentioned (store : list triplet) (k : string) (t : triplet) :
  In t store -> t_subject t = k \/ t_object t = k ->
  get k (create_entity_index store) = Some (bucket_of k store).
Proof.
  intros Hin Hk.
  destruct (create_entity_index_indexes store) as [_ H]. rewrite H.
  assert (Hb : In t (bucket_of k store)) by (apply in_bucket_of; auto).
  destruct (bucket_of k store); [contradiction|reflexivity].
Qed.

(** The keys that hold a stored triplet are its subject and its object. *)
Lemma keys_holding_filter (store : list triplet) (t : triplet) :
  In t store ->
  keys_holding t (create_entity_index store)
  = filter (fun k => String.eqb k (t_subject t) || String.eqb k (t_object t))
      (keys (create_entity_index store)).
Proof.
  intros Hin. unfold keys_holding, keys.
  rewrite <- map_fst_filter. f_equal.
  apply filter_ext_in. intros [k b] Hkb. simpl.
  destruct (create_entity_index_indexes store) as [Hd _].
  apply (In_get k b _ Hd) in Hkb. apply get_create_some in Hkb.
  destruct Hkb as [-> _].
  apply eq_true_iff_eq. rewrite existsb_triplet, in_bucket_of, orb_true_iff.
  rewrite !String.eqb_eq. intuition congruence.
Qed.

(** C7, as amended.  For every store and every triplet [t] of it, in the
    index built by [create_entity_index]: the bucket of the subject of
    [t] and the bucket of its object both hold [t]; no other key's bucket
    holds it; the number of keys holding it is two when subject and
    object differ and one when they are the same string; and every bucket
    lists, in store order, the triplets that mention its key. *)
Theorem entity_index_buckets (store : list triplet) (t : triplet) :
  In t store ->
  let idx := create_entity_index store in
  (exists b, get (t_subject t) idx = Some b /\ In t b)
  /\ (exists b, get (t_object t) idx = Some b /\ In t b)
  /\ (forall k b, get k idx = Some b -> In t b -> k = t_subject t \/ k = t_object t)
  /\ List.length (keys_holding t idx)
     = (if String.eqb (t_subject t) (t_object t) then 1 else 2)%nat
  /\ (forall k b, get k idx = Some b -> b = bucket_of k store).
Proof.
  intros Hin idx. subst idx.
  assert (Hs := get_create_mentioned store (t_subject t) t Hin (or_introl eq_refl)).
  assert (Ho := get_create_mentioned store (t_object t) t Hin (or_intror eq_refl)).
  split; [|split; [|split; [|split]]].
  - eexists. split; [exact Hs|]. apply in_bucket_of. auto.
  - eexists. split; [exact Ho|]. apply in_bucket_of. auto.
  - intros k b Hget Hb. apply get_create_some in Hget. destruct Hget as [-> _].
    apply in_bucket_of in Hb. destruct Hb as [_ [H|H]]; auto.
  - rewrite keys_holding_filter by assumption.
    destruct (create_entity_index_indexes store) as [Hd _].
    apply get_some_keys in Hs, Ho.
    destruct (String.eqb_spec (t_subject t) (t_object t)) as [Heq|Hne].
    + rewrite <- Heq.
      rewrite (filter_ext _ (fun k => String.eqb k (t_subject t)))
        by (intros k; apply orb_diag).
      now rewrite filter_eqb_NoDup.
    + rewrite filter_or_length.
      * now rewrite !filter_eqb_NoDup.
      * intros k Hk. apply String.eqb_eq in Hk. subst k.
        now apply String.eqb_neq.
  - intros k b Hget. now apply get_create_some in Hget.
Qed.

(** The index of the two-triplet store of the specification's scenario. *)
Lemma entity_index_buckets_witness :
  let t := ("lung nodule", "located_in", "right lung") in
  let store := [t; ("lung nodule", "has_size", "2cm")] in
  List.length (keys_holding t (create_entity_index store)) = 2%nat.
Proof.
  intros t store.
  exact (proj1 (proj2 (proj2 (proj2
    (entity_index_buckets store t (or_introl eq_refl)))))).
Defined.

(** C7 as stated fails on a triplet whose subject and object are the
    same string: it is held under one key, not two, and that bucket
    lists it twice. *)
Lemma self_loop_under_one_key :
  let t := ("cyst", "adjacent_to", "cyst") in
  In t [t]
  /\ create_entity_index [t] = [("cyst", [t; t])]
  /\ keys_holding t (create_entity_index [t]) = ["cyst"]
  /\ List.length (keys_holding t (create_entity_index [t])) <> 2%nat.
Proof.
  intros t. split; [now left|]. split; [reflexivity|]. split; [reflexivity|].
  vm_compute. discriminate.
Qed.

End PreprocessorFacts.

(** ** The knowledge retriever *)

Module RetrieverFacts.
Import Preprocessor Retriever PySeq PySeqFacts ListFacts.

Lemma argsort_perm {V : Vectorizer} (a : list Q) :
  Permutation (seq 0 (List.length a)) (argsort a).
Proof. apply stable_sort_perm. Qed.

(** Whatever NumPy does with equal values, the argsort is in ascending
    order of value. *)
Lemma argsort_sorted {V : Vectorizer} (a : list Q) :
  StronglySorted (ascending a) (argsort a).
Proof.
  unfold argsort.
  apply (stable_sort_sorted nat _ (ascending a) (fun _ _ => True)).
  - unfold ascending. intros x y z Hxy Hyz. now apply Qle_trans with (nth y a 0).
  - unfold ascending, stays_before. intros x y _ H.
    apply orb_true_iff in H. destruct H as [H|H].
    + apply negb_true_iff in H. apply Qlt_le_weak, Qnot_le_lt. intros Hle.
      apply Qle_bool_iff in Hle. congruence.
    + apply andb_true_iff in H. destruct H as [H _].
      apply Qeq_bool_iff in H. rewrite H. apply Qle_refl.
  - unfold ascending, stays_before. intros x y H.
    apply orb_false_iff in H. destruct H as [H _].
    apply negb_false_iff in H. now apply Qle_bool_iff.
  - apply StronglySorted_any.
Qed.

Lemma stays_before_true {V : Vectorizer} (a : list Q) (i j : nat) :
  stays_before a i j = true
  <-> (nth i a 0 < nth j a 0)%Q
      \/ ((nth i a 0 == nth j a 0)%Q /\ argsort_ties a i j = true).
Proof.
  unfold stays_before.
  rewrite orb_true_iff, negb_true_iff, andb_true_iff, Qeq_bool_iff.
  split; intros [H|H]; [left|now right|left|now right].
  - apply Qnot_le_lt. intros Hle. apply Qle_bool_iff in Hle. congruence.
  - destruct (Qle_bool (nth j a 0) (nth i a 0)) eqn:E; [|reflexivity].
    apply Qle_bool_iff in E. exfalso. exact (Qlt_not_le _ _ H E).
Qed.

Lemma stays_before_false {V : Vectorizer} (a : list Q) (i j : nat) :
  stays_before a i j = false
  <-> (nth j a 0 <= nth i a 0)%Q
      /\ ((nth i a 0 == nth j a 0)%Q -> argsort_ties a i j = false).
Proof.
  unfold stays_before.
  rewrite orb_false_iff, negb_false_iff, Qle_bool_iff, andb_false_iff.
  split; intros [H1 H2]; (split; [assumption|]).
  - intros Heq. destruct H2 as [H2|H2]; [|assumption].
    apply Qeq_bool_iff in Heq. congruence.
  - destruct (Qeq_bool (nth i a 0) (nth j a 0)) eqn:E; [|now left].
    right. apply H2. now apply Qeq_bool_iff.
Qed.

Lemma place_inj (p : list nat) (i j : nat) :
  In i p -> In j p -> place i p = place j p -> i = j.
Proof.
  induction p as [|x p IH]; simpl; [intros []|].
  intros Hi Hj.
  destruct (Nat.eqb_spec x i) as [<-|Hxi], (Nat.eqb_spec x j) as [<-|Hxj];
    try reflexivity; try discriminate.
  intros H. apply IH; [tauto|tauto|congruence].
Qed.

Lemma place_sorted (p : list nat) :
  NoDup p -> StronglySorted (fun i j => (place i p < place j p)%nat) p.
Proof.
  induction p as [|x p IH]; intros Hnd; constructor.
  - apply NoDup_cons_iff in Hnd. destruct Hnd as [Hx Hnd].
    apply (StronglySorted_impl_in (fun i j => (place i p < place j p)%nat));
      [|now apply IH].
    intros i j Hi Hj Hlt. simpl.
    destruct (Nat.eqb_spec x i) as [->|_]; [contradiction|].
    destruct (Nat.eqb_spec x j) as [->|_]; [contradiction|]. lia.
  - apply NoDup_cons_iff in Hnd. destruct Hnd as [Hx _].
    apply Forall_forall. intros y Hy. simpl. rewrite Nat.eqb_refl.
    destruct (Nat.eqb_spec x y) as [->|_]; [contradiction|]. lia.
Qed.

(** The model of [numpy.argsort] leaves the library every choice it
    has: any order [p] of the positions that is ascending in value is the
    argsort under the choice among equal values that follows [p]. *)
Lemma argsort_any_order (V : Vectorizer) (a : list Q) (p : list nat) :
  Permutation (seq 0 (List.length a)) p ->
  StronglySorted (ascending a) p ->
  @argsort (with_ties V (ties_as p)) a = p.
Proof.
  intros Hperm Hasc.
  set (W := with_ties V (ties_as p)).
  set (before := fun x y : nat => @stays_before W a y x = false).
  assert (Hties : forall i j,
            @argsort_ties W a i j = Nat.ltb (place i p) (place j p))
    by reflexivity.
  assert (Hnd : NoDup p) by (apply (Permutation_NoDup Hperm), seq_NoDup).
  assert (Hsorted : StronglySorted before (@argsort W a)).
  { unfold argsort.
    apply (stable_sort_sorted nat _ before (fun _ _ => True)).
    - unfold before. intros x y z Hxy Hyz.
      apply stays_before_false in Hxy, Hyz. apply stays_before_false.
      destruct Hxy as [Hxy Txy], Hyz as [Hyz Tyz].
      split; [now apply Qle_trans with (nth y a 0)|].
      intros Heq. rewrite Hties in *. apply Nat.ltb_ge.
      assert (Hyx : (nth y a 0 == nth x a 0)%Q).
      { apply Qle_antisym; [|assumption]. now rewrite <- Heq. }
      assert (Hzy : (nth z a 0 == nth y a 0)%Q).
      { apply Qle_antisym; [|assumption]. now rewrite Heq. }
      specialize (Txy Hyx). specialize (Tyz Hzy).
      apply Nat.ltb_ge in Txy, Tyz. lia.
    - unfold before. intros x y _ H.
      apply stays_before_true in H. apply stays_before_false.
      destruct H as [Hlt|[Heq Ht]].
      + split; [now apply Qlt_le_weak|]. intros Heq. rewrite Heq in Hlt.
        exfalso. exact (Qlt_irrefl _ Hlt).
      + split; [rewrite Heq; apply Qle_refl|]. intros _.
        rewrite Hties in *. apply Nat.ltb_lt in Ht. apply Nat.ltb_ge. lia.
    - unfold before. intros x y H. exact H.
    - apply StronglySorted_any. }
  symmetry. apply (StronglySorted_unique before).
  - intros x y Hx Hy Hxy Hyx. unfold before in Hxy, Hyx.
    apply stays_before_false in Hxy, Hyx.
    destruct Hxy as [Hle1 T1], Hyx as [Hle2 T2].
    assert (Heq : (nth x a 0 == nth y a 0)%Q) by now apply Qle_antisym.
    specialize (T2 Heq). symmetry in Heq. specialize (T1 Heq).
    rewrite Hties in T1, T2. apply Nat.ltb_ge in T1, T2.
    apply (place_inj p); [assumption|assumption|lia].
  - apply Permutation_trans with (seq 0 (List.length a));
      [now apply Permutation_sym|apply (@argsort_perm W)].
  - apply (StronglySorted_impl_in
             (fun x y => ascending a x y /\ (place x p < place y p)%nat)).
    + intros x y _ _ [Hle Hlt]. unfold before. apply stays_before_false.
      split; [exact Hle|]. intros _. rewrite Hties. apply Nat.ltb_ge. lia.
    + apply StronglySorted_and; [assumption|now apply place_sorted].
  - exact Hsorted.
Qed.

Lemma in_argsort {V : Vectorizer} (a : list Q) (i : nat) :
  In i (argsort a) <-> (i < List.length a)%nat.
Proof.
  split; intros H.
  - apply (Permutation_in _ (Permutation_sym (argsort_perm a))) in H.
    apply in_seq in H. lia.
  - apply (Permutation_in _ (argsort_perm a)). apply in_seq. lia.
Qed.

Lemma above_threshold_lt (s : Q) : above_threshold s = true <-> (threshold < s)%Q.
Proof.
  unfold above_threshold. rewrite negb_true_iff. split.
  - intros H. apply Qnot_le_lt. intros Hle. apply Qle_bool_iff in Hle. congruence.
  - intros H. destruct (Qle_bool s threshold) eqn:E; [|reflexivity].
    apply Qle_bool_iff in E. exfalso. now apply (Qlt_not_le _ _ H).
Qed.

Lemma flat_map_select {A B} (f : A -> bool) (g : A -> B) (l : list A) :
  flat_map (fun x => if f x then [g x] else []) l = map g (filter f l).
Proof.
  induction l as [|x l IH]; simpl; [reflexivity|].
  destruct (f x); simpl; now rewrite IH.
Qed.

Section Retrieval.
Context {V : Vectorizer}.
Variable self : KnowledgeBaseRetriever.

Lemma similarities_length (q : string) :
  List.length (similarities self q) = List.length (entity_list self).
Proof. unfold similarities, entity_texts. now rewrite !length_map. Qed.

Lemma find_similar_entities_selected (q : string) (k : Z) :
  find_similar_entities self q k
  = map (fun i => (nth i (entity_list self) "", nth i (similarities self q) 0%Q))
      (selected_indices self q k).
Proof. unfold find_similar_entities, selected_indices. apply flat_map_select. Qed.

Lemma in_top_indices (q : string) (k : Z) (i : nat) :
  In i (top_indices self q k) -> (i < List.length (similarities self q))%nat.
Proof.
  unfold top_indices. rewrite <- in_rev. intros H.
  apply slice_from_incl in H. now apply in_argsort.
Qed.

Lemma top_indices_ranked (q : string) (k : Z) :
  StronglySorted (ranked_before (similarities self q)) (top_indices self q k).
Proof.
  unfold top_indices.
  apply (StronglySorted_rev (ascending (similarities self q))).
  unfold slice_from. apply StronglySorted_skipn, argsort_sorted.
Qed.

Lemma in_found (q : string) (k : Z) (e : string) (s : Q) :
  In (e, s) (find_similar_entities self q k) ->
  (threshold < s)%Q
  /\ exists i, In i (top_indices self q k)
       /\ nth_error (entity_list self) i = Some e
       /\ nth_error (similarities self q) i = Some s.
Proof.
  rewrite find_similar_entities_selected. intros H.
  apply in_map_iff in H. destruct H as [i [Heq Hi]]. inversion Heq; subst.
  apply filter_In in Hi. destruct Hi as [Htop Habove].
  split; [now apply above_threshold_lt|].
  exists i. pose proof (in_top_indices q k i Htop) as Hlt.
  split; [assumption|]. split; apply nth_error_nth'.
  - now rewrite <- similarities_length with (q := q).
  - assumption.
Qed.

Lemma found_of_top (q : string) (k : Z) (i : nat) (e : string) (s : Q) :
  In i (top_indices self q k) ->
  nth_error (entity_list self) i = Some e ->
  nth_error (similarities self q) i = Some s ->
  (threshold < s)%Q ->
  In (e, s) (find_similar_entities self q k).
Proof.
  intros Htop He Hs Hlt. rewrite find_similar_entities_selected.
  apply in_map_iff. exists i.
  rewrite (nth_error_nth _ _ _ He), (nth_error_nth _ _ _ Hs).
  split; [reflexivity|]. apply filter_In. split; [assumption|].
  rewrite (nth_error_nth _ _ _ Hs). now apply above_threshold_lt.
Qed.

Lemma found_length (q : string) (k : Z) :
  (List.length (find_similar_entities self q k)
   <= List.length (top_indices self q k))%nat.
Proof.
  rewrite find_similar_entities_selected, length_map.
  unfold selected_indices. apply filter_length_le.
Qed.

Lemma found_none (q : string) (k : Z) :
  (forall s, In s (similarities self q) -> (s <= threshold)%Q) ->
  find_similar_entities self q k = [].
Proof.
  intros Hall. destruct (find_similar_entities self q k) as [|[e s] r] eqn:E;
    [reflexivity|].
  assert (Hin : In (e, s) (find_similar_entities self q k))
    by (rewrite E; now left).
  apply in_found in Hin. destruct Hin as [Hlt [i [_ [_ Hs]]]].
  apply nth_error_In in Hs. apply Hall in Hs.
  exfalso. now apply (Qlt_not_le _ _ Hlt).
Qed.

End Retrieval.

(** C4, as amended.  For every query and every [top_k >= 1],
    [find_similar_entities] returns only entities of the index whose
    score is greater than 0.3, each with that score; at most [top_k] of
    them; in descending order of score, with no promise on the order of
    entities of equal score; and nothing when no score is above the
    threshold.  This holds however NumPy orders equal values. *)
Theorem find_similar_entities_ranked {V : Vectorizer}
  (self : KnowledgeBaseRetriever) (query_entity : string) (top_k : Z) :
  (1 <= top_k)%Z ->
  let sims := similarities self query_entity in
  let found := find_similar_entities self query_entity top_k in
  (forall e s, In (e, s) found ->
     (threshold < s)%Q
     /\ exists i, nth_error (entity_list self) i = Some e
          /\ nth_error sims i = Some s)
  /\ (Z.of_nat (List.length found) <= top_k)%Z
  /\ descending found
  /\ ((forall s, In s sims -> (s <= threshold)%Q) -> found = []).
Proof.
  intros Hk sims found. subst sims found.
  split; [|split; [|split]].
  - intros e s Hin. apply in_found in Hin.
    destruct Hin as [Hlt [i [_ [He Hs]]]]. split; [assumption|]. now exists i.
  - pose proof (found_length self query_entity top_k) as Hlen.
    unfold top_indices in Hlen. rewrite length_rev in Hlen.
    pose proof (slice_from_last_length top_k
                  (argsort (similarities self query_entity)) Hk).
    lia.
  - unfold descending. rewrite find_similar_entities_selected.
    apply StronglySorted_map. unfold selected_indices.
    apply StronglySorted_filter. apply top_indices_ranked.
  - apply found_none.
Qed.

(** Two entities with different scores above the threshold. *)
Lemma find_similar_entities_ranked_witness :
  (1 <= 2)%Z
  /\ @find_similar_entities containment_match (load graded_store) "Lung Nodule" 2
     = [("lung nodule", 1%Q); ("lung", (1 # 2)%Q)]
  /\ (Z.of_nat (List.length
        (@find_similar_entities containment_match (load graded_store)
           "Lung Nodule" 2)) <= 2)%Z
  /\ descending
       (@find_similar_entities containment_match (load graded_store) "Lung Nodule" 2).
Proof.
  split; [lia|]. split; [reflexivity|].
  pose proof (@find_similar_entities_ranked containment_match (load graded_store)
                "Lung Nodule" 2) as H.
  simpl in H. destruct H as [_ [Hlen [Hdesc _]]]; [lia|].
  split; [exact Hlen|exact Hdesc].
Defined.

(** C4 as stated fails.  With [top_k = 0] the slice [[-0:]] keeps the
    whole argsort, so two entities come back where at most zero were
    promised, however NumPy orders equal values.  And the order of two
    entities of equal score is the library's, not the code's: when the
    argsort leaves equal values in the order of their positions, they come
    back reversed, the later key of the index first, not in
    index-construction order. *)
Lemma find_similar_entities_zero_and_ties :
  entity_list (load twin_store) = ["left_lung"; "left:lung"]
  /\ @similarities exact_match (load twin_store) "left lung" = [1%Q; 1%Q]
  /\ @find_similar_entities exact_match (load twin_store) "left lung" 0
     = [("left:lung", 1%Q); ("left_lung", 1%Q)]
  /\ (Z.of_nat (List.length
        (@find_similar_entities exact_match (load twin_store) "left lung" 0)) > 0)%Z
  /\ @find_similar_entities exact_match (load twin_store) "left lung" 2
     = [("left:lung", 1%Q); ("left_lung", 1%Q)]
  /\ (forall ties,
        List.length
          (@find_similar_entities (with_ties exact_match ties) (load twin_store)
             "left lung" 0) = 2%nat).
Proof.
  split; [reflexivity|]. split; [reflexivity|]. split; [reflexivity|].
  split; [reflexivity|]. split; [reflexivity|].
  intros ties.
  unfold find_similar_entities, top_indices, argsort, stays_before, stable_sort.
  simpl.
  match goal with |- context [ties ?a 0%nat 1%nat] => destruct (ties a 0%nat 1%nat) end;
    reflexivity.
Qed.

(** The other order is as possible: when the argsort puts the later of
    two equal values first, the two entities come back in
    index-construction order. *)
Lemma find_similar_entities_ties_open :
  @find_similar_entities (with_ties exact_match (fun _ _ _ => false))
    (load twin_store) "left lung" 2
  = [("left_lung", 1%Q); ("left:lung", 1%Q)].
Proof. reflexivity. Qed.

(** C10.  With [top_k = 0], [find_similar_entities] returns every entity
    of the index whose score is greater than 0.3: as many as there are
    such scores, hence a non-empty sequence as soon as one entity clears
    the threshold. *)
Theorem find_similar_entities_top_k_zero {V : Vectorizer}
  (self : KnowledgeBaseRetriever) (query_entity : string) :
  let sims := similarities self query_entity in
  let found := find_similar_entities self query_entity 0 in
  (forall i e s,
     nth_error (entity_list self) i = Some e -> nth_error sims i = Some s ->
     (threshold < s)%Q -> In (e, s) found)
  /\ List.length found = List.length (filter above_threshold sims)
  /\ ((exists s, In s sims /\ (threshold < s)%Q) -> found <> []).
Proof.
  intros sims found. subst sims found.
  assert (Hall : forall i e s,
    nth_error (entity_list self) i = Some e ->
    nth_error (similarities self query_entity) i = Some s ->
    (threshold < s)%Q -> In (e, s) (find_similar_entities self query_entity 0)).
  { intros i e s He Hs Hlt. apply (found_of_top self query_entity 0 i); try assumption.
    unfold top_indices. simpl Z.opp. rewrite slice_from_zero, <- in_rev.
    apply in_argsort. apply nth_error_Some. congruence. }
  split; [exact Hall|]. split.
  - rewrite find_similar_entities_selected, length_map.
    unfold selected_indices, top_indices. simpl Z.opp. rewrite slice_from_zero.
    rewrite <- (filter_positions_length above_threshold 0%Q).
    apply Permutation_length, filter_perm.
    apply Permutation_trans with (argsort (similarities self query_entity)).
    + apply Permutation_sym, Permutation_rev.
    + apply Permutation_sym, argsort_perm.
  - intros [s [Hin Hlt]] Hnil.
    apply In_nth_error in Hin. destruct Hin as [i Hs].
    assert (Hi : (i < List.length (entity_list self))%nat).
    { rewrite <- similarities_length with (q := query_entity).
      apply nth_error_Some. congruence. }
    destruct (nth_error (entity_list self) i) as [e|] eqn:He.
    + pose proof (Hall i e s He Hs Hlt) as H. rewrite Hnil in H. contradiction.
    + apply nth_error_None in He. lia.
Qed.

(** C5.  For every entity and every [max_triplets >= 0],
    [retrieve_entity_knowledge] returns at most [max_triplets] triplets. *)
Theorem retrieve_entity_knowledge_budget {V : Vectorizer}
  (self : KnowledgeBaseRetriever) (entity : string) (max_triplets : Z) :
  (0 <= max_triplets)%Z ->
  (Z.of_nat (List.length (retrieve_entity_knowledge self entity max_triplets))
   <= max_triplets)%Z.
Proof.
  intros Hn. unfold retrieve_entity_knowledge. now apply slice_to_length.
Qed.

Lemma retrieve_entity_knowledge_budget_witness :
  (0 <= 4)%Z
  /\ (Z.of_nat (List.length
        (@retrieve_entity_knowledge exact_match (load scenario_store)
           "Lung Nodule" 4)) <= 4)%Z.
Proof.
  split; [lia|].
  apply (@retrieve_entity_knowledge_budget exact_match (load scenario_store)
           "Lung Nodule" 4).
  lia.
Defined.

(** When only the first of three scores is above the threshold, the
    selection is position 0, however the scores compare. *)
Lemma selected_first_of_three {V : Vectorizer} (self : KnowledgeBaseRetriever)
  (q : string) (a b c : Q) :
  similarities self q = [a; b; c] ->
  (threshold < a)%Q -> (b <= threshold)%Q -> (c <= threshold)%Q ->
  selected_indices self q 3 = [0%nat].
Proof.
  intros Hsims Ha Hb Hc. unfold selected_indices, top_indices.
  rewrite Hsims.
  assert (Hperm : Permutation [0; 1; 2]%nat
                    (rev (slice_from (- (3)) (argsort [a; b; c])))).
  { rewrite slice_from_last by lia.
    rewrite <- (Permutation_length (argsort_perm [a; b; c])).
    simpl skipn.
    apply Permutation_trans with (argsort [a; b; c]).
    - apply (argsort_perm [a; b; c]).
    - apply Permutation_rev. }
  apply (filter_perm (fun idx => above_threshold (nth idx [a; b; c] 0%Q))) in Hperm.
  simpl in Hperm.
  assert (Ea : above_threshold a = true) by now apply above_threshold_lt.
  assert (Eb : above_threshold b = false).
  { destruct (above_threshold b) eqn:E; [|reflexivity].
    apply above_threshold_lt in E. exfalso. now apply (Qlt_not_le _ _ E). }
  assert (Ec : above_threshold c = false).
  { destruct (above_threshold c) eqn:E; [|reflexivity].
    apply above_threshold_lt in E. exfalso. now apply (Qlt_not_le _ _ E). }
  rewrite Ea, Eb, Ec in Hperm.
  now apply Permutation_length_1_inv in Hperm.
Qed.

(** C6.  On the index built from the two triplets of the scenario, with
    a vectorizer that scores the entity "lung nodule" above 0.3 for the
    query text "lung nodule" and the entities "right lung" and "2cm" not
    above it (scikit-learn's scores there are 1.0, about 0.279 and 0),
    the exact lookup of "Lung Nodule" misses, the similarity search finds
    "lung nodule" alone, and [retrieve_entity_knowledge "Lung Nodule" 4]
    returns both triplets. *)
Theorem retrieve_lung_nodule {V : Vectorizer} :
  let corpus := ["lung nodule"; "right lung"; "2cm"] in
  (threshold < tfidf_cosine corpus "lung nodule" "lung nodule")%Q ->
  (tfidf_cosine corpus "lung nodule" "right lung" <= threshold)%Q ->
  (tfidf_cosine corpus "lung nodule" "2cm" <= threshold)%Q ->
  PyDict.get "Lung Nodule" (entity_index (load scenario_store)) = None
  /\ find_similar_entities (load scenario_store) "Lung Nodule" 3
     = [("lung nodule", tfidf_cosine corpus "lung nodule" "lung nodule")]
  /\ retrieve_entity_knowledge (load scenario_store) "Lung Nodule" 4
     = [lung_located; lung_size].
Proof.
  intros corpus Ha Hb Hc.
  assert (Hfound : find_similar_entities (load scenario_store) "Lung Nodule" 3
                   = [("lung nodule", tfidf_cosine corpus "lung nodule" "lung nodule")]).
  { rewrite find_similar_entities_selected.
    rewrite (selected_first_of_three (load scenario_store) "Lung Nodule"
               _ _ _ eq_refl Ha Hb Hc).
    reflexivity. }
  split; [reflexivity|]. split; [exact Hfound|].
  unfold retrieve_entity_knowledge. rewrite Hfound. reflexivity.
Qed.

Lemma retrieve_lung_nodule_witness :
  @retrieve_entity_knowledge exact_match (load scenario_store) "Lung Nodule" 4
  = [lung_located; lung_size].
Proof.
  apply (@retrieve_lung_nodule exact_match); vm_compute; congruence.
Defined.

(** C9.  [retrieve_relationship_knowledge] returns exactly the first
    five at most, in store order, of the stored triplets whose predicate
    contains or is contained in the query predicate, and whose subject
    contains or is contained in the query subject or whose object contains
    or is contained in the query object, all compared in lower case. *)
Theorem retrieve_relationship_knowledge_spec
  (self : KnowledgeBaseRetriever) (subject predicate obj : string) :
  retrieve_relationship_knowledge self subject predicate obj
  = relationship_spec (triplets self) subject predicate obj.
Proof.
  unfold retrieve_relationship_knowledge, relationship_spec.
  rewrite slice_to_nonneg by lia.
  change (Z.to_nat 5) with 5%nat. f_equal.
  rewrite (fold_left_append_nested (similar_predicate predicate)
             (related_entities subject obj) (triplets self) []).
  apply filter_ext. intros t.
  unfold similar_predicate, related_entities, ci_substring_match.
  now rewrite <- !orb_assoc.
Qed.

End RetrieverFacts.

(** ** The result ledger *)

Module OutputUtilsFacts.
Import OutputUtils PySeq PySeqFacts ListFacts.

Lemma sort_by_index_perm (l : list entry) : Permutation l (sort_by_index l).
Proof. apply stable_sort_perm. Qed.

Lemma sort_by_index_sorted (l : list entry) :
  StronglySorted (fun a b => (index a <= index b)%Z) (sort_by_index l).
Proof.
  unfold sort_by_index.
  apply (stable_sort_sorted entry _ _ (fun _ _ => True)).
  - intros x y z Hxy Hyz. lia.
  - intros x y _ Hle. now apply Z.leb_le.
  - intros x y Hle. apply Z.leb_gt in Hle. lia.
  - apply StronglySorted_any.
Qed.

Lemma format_json_out_put_upserted (q truth pred : string) (idx : Z)
  (output : ledger_file) :
  format_json_out_put q truth pred idx output
  = Some (sort_by_index
            (upserted {| index := idx; question := q; ground_truth := truth;
                         prediction := pred |} (load_results output))).
Proof.
  unfold format_json_out_put, upserted. simpl.
  now destruct (replace_first idx _ (load_results output)).
Qed.

Lemma upserted_at (result : entry) (results : list entry) :
  filter (fun r => (index r =? index result)%Z) (upserted result results)
  = result :: tl (filter (fun r => (index r =? index result)%Z) results).
Proof.
  unfold upserted. induction results as [|r rest IH]; simpl.
  - now rewrite Z.eqb_refl.
  - destruct (index r =? index result)%Z eqn:E; simpl.
    + now rewrite Z.eqb_refl.
    + destruct (replace_first (index result) result rest) as [rest' found].
      destruct found; simpl; rewrite E; exact IH.
Qed.

Lemma upserted_indices (result : entry) (results : list entry) :
  map index (upserted result results)
  = if existsb (Z.eqb (index result)) (map index results)
    then map index results
    else map index results ++ [index result].
Proof.
  unfold upserted. induction results as [|r rest IH]; simpl; [reflexivity|].
  rewrite (Z.eqb_sym (index result) (index r)).
  destruct (index r =? index result)%Z eqn:E; simpl.
  - apply Z.eqb_eq in E. now rewrite E.
  - destruct (replace_first (index result) result rest) as [rest' found].
    destruct found; simpl in *; rewrite IH;
      now destruct (existsb (Z.eqb (index result)) (map index rest)).
Qed.

Lemma at_most_one_entry (idx : Z) (results : list entry) :
  NoDup (map index results) ->
  tl (filter (fun r => (index r =? idx)%Z) results) = [].
Proof.
  induction results as [|r rest IH]; simpl; intros Hd; [reflexivity|].
  apply NoDup_cons_iff in Hd. destruct Hd as [Hr Hd].
  destruct (index r =? idx)%Z eqn:E; [|now apply IH].
  simpl. apply Z.eqb_eq in E.
  destruct (filter (fun r0 => (index r0 =? idx)%Z) rest) as [|r' l] eqn:F;
    [reflexivity|].
  assert (Hin : In r' (filter (fun r0 => (index r0 =? idx)%Z) rest))
    by (rewrite F; now left).
  apply filter_In in Hin. destruct Hin as [Hin Hidx]. apply Z.eqb_eq in Hidx.
  exfalso. apply Hr. rewrite E, <- Hidx. now apply in_map.
Qed.

(** [format_json_out_put] keeps the indices of the file distinct. *)
Lemma format_json_out_put_ledger_state (q truth pred : string) (idx : Z)
  (output : ledger_file) :
  ledger_state output -> ledger_state (format_json_out_put q truth pred idx output).
Proof.
  unfold ledger_state. intros Hd. rewrite format_json_out_put_upserted. simpl.
  eapply Permutation_NoDup; [apply Permutation_map, sort_by_index_perm|].
  rewrite upserted_indices. simpl.
  destruct (existsb (Z.eqb idx) (map index (load_results output))) eqn:E;
    [assumption|].
  apply NoDup_rev in Hd.
  rewrite <- (rev_involutive (map index (load_results output) ++ [idx])).
  apply NoDup_rev. rewrite rev_app_distr. simpl. constructor; [|assumption].
  rewrite <- in_rev. intros Hin.
  assert (Habs : existsb (Z.eqb idx) (map index (load_results output)) = true).
  { apply existsb_exists. exists idx. split; [assumption|apply Z.eqb_refl]. }
  congruence.
Qed.

(** Every file the code produces is a ledger. *)
Lemma written_ledger_state (output : ledger_file) :
  written output -> ledger_state output.
Proof.
  induction 1 as [|q truth pred idx output _ IH].
  - constructor.
  - now apply format_json_out_put_ledger_state.
Qed.

(** After a call on a ledger, the entry written is the only one at its
    index. *)
Lemma entries_at_format_json_out_put (q truth pred : string) (idx : Z)
  (output : ledger_file) :
  ledger_state output ->
  entries_at idx (format_json_out_put q truth pred idx output)
  = [{| index := idx; question := q; ground_truth := truth; prediction := pred |}].
Proof.
  intros Hd. unfold entries_at. rewrite format_json_out_put_upserted. simpl.
  set (result := {| index := idx; question := q; ground_truth := truth;
                    prediction := pred |}).
  apply Permutation_length_1_inv.
  eapply Permutation_trans;
    [|apply filter_perm, sort_by_index_perm].
  change idx with (index result).
  rewrite upserted_at, at_most_one_entry by exact Hd.
  apply Permutation_refl.
Qed.

(** C8.  On every ledger (a file keyed by index, absent or present),
    calling [format_json_out_put] twice with the same index leaves exactly
    one entry for that index, the one written last, and after each of the
    two calls the stored array is sorted ascending by index. *)
Theorem format_json_out_put_twice (output : ledger_file) (idx : Z)
  (q1 truth1 pred1 q2 truth2 pred2 : string) :
  ledger_state output ->
  let after1 := format_json_out_put q1 truth1 pred1 idx output in
  let after2 := format_json_out_put q2 truth2 pred2 idx after1 in
  entries_at idx after2
  = [{| index := idx; question := q2; ground_truth := truth2; prediction := pred2 |}]
  /\ sorted_by_index after1
  /\ sorted_by_index after2.
Proof.
  intros Hd after1 after2. subst after1 after2. split; [|split].
  - apply entries_at_format_json_out_put.
    now apply format_json_out_put_ledger_state.
  - rewrite format_json_out_put_upserted. apply sort_by_index_sorted.
  - rewrite format_json_out_put_upserted. apply sort_by_index_sorted.
Qed.

Lemma format_json_out_put_twice_witness :
  ledger_state (format_json_out_put "Q2" "no" "timeout" 2 None)
  /\ entries_at 1
       (format_json_out_put "Q1" "yes" "yes" 1
          (format_json_out_put "Q1" "yes" "Error: timeout" 1
             (format_json_out_put "Q2" "no" "timeout" 2 None)))
     = [{| index := 1; question := "Q1"; ground_truth := "yes"; prediction := "yes" |}].
Proof.
  assert (Hd : ledger_state (format_json_out_put "Q2" "no" "timeout" 2 None)).
  { vm_compute. constructor; [intros []|constructor]. }
  split; [exact Hd|].
  apply (format_json_out_put_twice (format_json_out_put "Q2" "no" "timeout" 2 None)
           1 "Q1" "yes" "Error: timeout" "Q1" "yes" "yes" Hd).
Defined.

End OutputUtilsFacts.

(** ** The consensus loop *)

Module SMRAgentsFacts.
Import OutputUtils SMRAgents.

Lemma review_passes_snoc (ps : list prompt) (p : prompt) :
  review_passes (ps ++ [p])
  = (review_passes ps + (if is_review p then 1 else 0))%nat.
Proof.
  unfold review_passes. rewrite filter_app, length_app. simpl.
  now destruct (is_review p).
Qed.

Create HintDb passes.

Section Agents.
Context {C : Collaborators}.

Lemma passes_ret {A} (a : A) : passes_between 0 0 (ret a).
Proof. intros st. simpl. lia. Qed.

Lemma passes_call {A} (f : world -> (exn + A) * world) : passes_between 0 0 (call f).
Proof. intros st. unfold call. destruct (f (ext st)). simpl. lia. Qed.

Lemma passes_save (q truth pred : string) (idx : Z) :
  passes_between 0 0 (save q truth pred idx).
Proof.
  intros st. unfold save.
  destruct (ledger_fault (output_file st) (ext st)) as [[[e f]|] w]; simpl; lia.
Qed.

Lemma passes_assign (q a : string) : passes_between 0 0 (assign_question_answer q a).
Proof. intros st. simpl. lia. Qed.

Lemma passes_read : passes_between 0 0 read_question_answer.
Proof.
  intros st. unfold read_question_answer. destruct (question_answer st); simpl; lia.
Qed.

Lemma passes_l_engine_review (p : prompt) :
  is_review p = true -> passes_between 1 1 (l_engine p).
Proof.
  intros Hp st. unfold l_engine. destruct (l_get_response p (ext st)). simpl.
  rewrite review_passes_snoc, Hp. lia.
Qed.

Lemma passes_l_engine_other (p : prompt) :
  is_review p = false -> passes_between 0 0 (l_engine p).
Proof.
  intros Hp st. unfold l_engine. destruct (l_get_response p (ext st)). simpl.
  rewrite review_passes_snoc, Hp. lia.
Qed.

(** A raise in [m] skips [k]: the lower bound is that of [m]. *)
Lemma passes_bind {A B} (lo a b : nat) (m : M A) (k : A -> M B) :
  passes_between lo a m -> (forall x, passes_between 0 b (k x)) ->
  passes_between lo (a + b) (bind m k).
Proof.
  intros Hm Hk st. unfold bind. specialize (Hm st).
  destruct (m st) as [[e|x] st']; simpl in *.
  - lia.
  - specialize (Hk x st'). lia.
Qed.

Lemma passes_try {A} (lo a b : nat) (body : M A) (handler : exn -> M A) :
  passes_between lo a body -> (forall e, passes_between 0 b (handler e)) ->
  passes_between lo (a + b) (try_except body handler).
Proof.
  intros Hm Hk st. unfold try_except. specialize (Hm st).
  destruct (body st) as [[e|x] st']; simpl in *.
  - destruct (is_exception e); [|simpl; lia]. specialize (Hk e st'). lia.
  - lia.
Qed.

Lemma passes_weaken {A} (lo hi hi' : nat) (m : M A) :
  (hi <= hi')%nat -> passes_between lo hi m -> passes_between lo hi' m.
Proof. intros Hab Hm st. specialize (Hm st). lia. Qed.

Hint Resolve passes_ret passes_call passes_save passes_assign passes_read : passes.
Hint Extern 1 (passes_between 0 0 (l_engine _)) =>
  apply passes_l_engine_other; reflexivity : passes.

(** A step that sends no review prompt, followed by a continuation. *)
Ltac quiet_then x :=
  apply (passes_bind 0 0 _); [auto with passes|intros x].

Lemma passes_generate (question image path : string) :
  passes_between 0 0 (generate_and_refine_scene_graph question image path).
Proof.
  unfold generate_and_refine_scene_graph.
  quiet_then g. destruct has_refiner; [|auto with passes].
  quiet_then g'. quiet_then v.
  destruct (negb (is_valid v)); auto with passes.
Qed.

Lemma passes_update_each (question description feedback : string)
  (specialists acc : list string) :
  passes_between 0 0 (update_each question description feedback specialists acc).
Proof.
  revert acc. induction specialists as [|sp rest IH]; intros acc; simpl.
  - auto with passes.
  - destruct (PyStr.contains _ feedback); [|apply IH].
    quiet_then x. apply IH.
Qed.

Lemma passes_update (question description current_opinions feedback : string) :
  passes_between 0 0
    (update_specialist_opinions question description current_opinions feedback).
Proof.
  unfold update_specialist_opinions.
  apply (passes_bind 0 0 0); [apply passes_update_each|]. intros l.
  auto with passes.
Qed.

Lemma review_prompt_is_review (question description experts_opinions expert_diagnosis : string)
  (iteration : nat) :
  is_review (review_prompt question description experts_opinions expert_diagnosis
               iteration) = true.
Proof. unfold review_prompt. now destruct (Nat.eqb iteration 0). Qed.

(** One iteration is one review pass: it sends exactly one review
    prompt, the first thing it does. *)
Lemma passes_iteration (question description experts_opinions expert_diagnosis : string)
  (iteration : nat) :
  passes_between 1 1
    (process_feedback_iteration question description experts_opinions
       expert_diagnosis iteration).
Proof.
  unfold process_feedback_iteration.
  apply (passes_bind 1 1 0).
  - apply passes_l_engine_review, review_prompt_is_review.
  - intros ev. destruct (PyStr.contains consistent_phrase _); [auto with passes|].
    apply (passes_bind 0 0 0).
    + destruct (PyStr.contains specialists_marker ev); [|auto with passes].
      destruct (String.eqb _ ""); [auto with passes|apply passes_update].
    + intros ops. apply (passes_bind 0 0 0).
      * destruct (PyStr.contains diagnostic_marker ev); auto with passes.
      * intros d. auto with passes.
Qed.

Lemma passes_review_loop (question description : string) (iterations : list nat)
  (experts_opinions expert_diagnosis : string) :
  passes_between 0 (List.length iterations)
    (review_loop question description iterations experts_opinions expert_diagnosis).
Proof.
  revert experts_opinions expert_diagnosis.
  induction iterations as [|i rest IH]; intros ops diag; simpl.
  - auto with passes.
  - apply (passes_bind 0 1 (List.length rest)).
    + intros st. pose proof (passes_iteration question description ops diag i st).
      lia.
    + intros [[ops' diag'] cont]. destruct (negb cont); [|apply IH].
      eapply passes_weaken; [|apply passes_ret]. lia.
Qed.

Lemma passes_integrate (question description experts_opinions expert_diagnosis : string) :
  passes_between 0 0 (integrate question description experts_opinions expert_diagnosis).
Proof. unfold integrate. auto with passes. Qed.

Lemma passes_process_item (idx : Z) :
  passes_between 0 max_iterations (process_item idx).
Proof.
  unfold process_item.
  quiet_then it. quiet_then u.
  apply (passes_bind 0 0 _); [apply passes_generate|]. intros d.
  quiet_then c. quiet_then o. quiet_then g.
  apply (passes_bind 0 max_iterations 0); [|intros f; auto with passes].
  unfold review_and_integrate.
  apply (passes_bind 0 max_iterations 0).
  - apply (passes_review_loop _ _ (seq 0 max_iterations)).
  - intros [o' g']. apply passes_integrate.
Qed.

Lemma passes_save_error (idx : Z) (e : exn) : passes_between 0 0 (save_error idx e).
Proof.
  unfold save_error.
  apply (passes_bind 0 0 0); [auto with passes|]. intros [q a]. auto with passes.
Qed.

End Agents.

(** C1.  Whatever the engines answer, every execution of
    [process_feedback_iteration] is one review pass (it sends exactly one
    review prompt), and one run of the loop over
    [range(max_iterations)] in [run], as well as the whole [try] statement
    for one item, makes at most [max_iterations] = 3 of them. *)
Theorem review_passes_bounded {C : Collaborators} :
  max_iterations = 3%nat
  /\ (forall question description experts_opinions expert_diagnosis iteration st,
        review_passes
          (sent (snd (process_feedback_iteration question description experts_opinions
                        expert_diagnosis iteration st)))
        = (review_passes (sent st) + 1)%nat)
  /\ (forall question description experts_opinions expert_diagnosis st,
        (review_passes
           (sent (snd (review_loop question description (seq 0 max_iterations)
                         experts_opinions expert_diagnosis st)))
         <= review_passes (sent st) + 3)%nat)
  /\ (forall idx st,
        (review_passes (sent (snd (run_item idx st)))
         <= review_passes (sent st) + 3)%nat).
Proof.
  split; [reflexivity|]. split; [|split].
  - intros q d o g i st. pose proof (passes_iteration q d o g i st). lia.
  - intros q d o g st.
    apply (passes_review_loop q d (seq 0 max_iterations) o g st).
  - intros idx st. unfold run_item.
    apply (passes_try 0 max_iterations 0 _ _ (passes_process_item idx)
             (passes_save_error idx) st).
Qed.

(** C3.  When the review of an iteration answers with a text that
    contains "all opinions are consistent" in any letter case,
    [process_feedback_iteration] returns the opinions and the diagnosis it
    was given together with [False]; the loop of [run] ends there with
    them, whatever iterations remain, having made that one call; and the
    next step is the integration summary of these opinions. *)
Theorem consistent_review_stops {C : Collaborators}
  (question description experts_opinions expert_diagnosis : string)
  (iteration : nat) (rest : list nat) (st : state) (evaluation : string) (w : world) :
  let p := review_prompt question description experts_opinions expert_diagnosis
             iteration in
  l_get_response p (ext st) = (inr evaluation, w) ->
  PyStr.contains consistent_phrase (PyStr.lower evaluation) = true ->
  process_feedback_iteration question description experts_opinions expert_diagnosis
    iteration st
  = (inr (experts_opinions, expert_diagnosis, false), after_prompt p w st)
  /\ review_loop question description (iteration :: rest) experts_opinions
       expert_diagnosis st
     = (inr (experts_opinions, expert_diagnosis), after_prompt p w st)
  /\ review_and_integrate question description (iteration :: rest) experts_opinions
       expert_diagnosis st
     = integrate question description experts_opinions expert_diagnosis
         (after_prompt p w st).
Proof.
  intros p Hreply Hphrase.
  assert (Hiter :
    process_feedback_iteration question description experts_opinions
      expert_diagnosis iteration st
    = (inr (experts_opinions, expert_diagnosis, false), after_prompt p w st)).
  { unfold process_feedback_iteration, bind, l_engine. fold p.
    rewrite Hreply, Hphrase. reflexivity. }
  assert (Hloop :
    review_loop question description (iteration :: rest) experts_opinions
      expert_diagnosis st
    = (inr (experts_opinions, expert_diagnosis), after_prompt p w st)).
  { simpl. unfold bind at 1. rewrite Hiter. reflexivity. }
  split; [exact Hiter|]. split; [exact Hloop|].
  unfold review_and_integrate, bind. rewrite Hloop. reflexivity.
Qed.

Lemma consistent_review_stops_witness :
  @review_loop (scripted [Some sample_item] agreeing_reply)
    "Is there a nodule?" "scene graph" [0; 1; 2]%nat "opinions" "diagnosis"
    (@initial_state (scripted [Some sample_item] agreeing_reply) tt None)
  = (inr ("opinions", "diagnosis"),
     @after_prompt (scripted [Some sample_item] agreeing_reply)
       (expert_evaluation_prompt "Is there a nodule?" "scene graph" "diagnosis"
          "opinions")
       tt (@initial_state (scripted [Some sample_item] agreeing_reply) tt None)).
Proof.
  apply (@consistent_review_stops (scripted [Some sample_item] agreeing_reply)
           "Is there a nodule?" "scene graph" "opinions" "diagnosis" 0%nat [1; 2]%nat
           (@initial_state (scripted [Some sample_item] agreeing_reply) tt None)
           "Review: All opinions are consistent." tt);
    reflexivity.
Defined.

(** The [try] statement of [run] when the body raises an [Exception]:
    with [question] and [answer] assigned and a file system that lets the
    write through, the error text is saved under the index and the
    statement completes. *)
Lemma run_item_saves_error {C : Collaborators} (idx : Z) (st st' : state)
  (e : exn) (q a : string) (w : world) :
  process_item idx st = (inl e, st') ->
  is_exception e = true ->
  question_answer st' = Some (q, a) ->
  ledger_fault (output_file st') (ext st') = (None, w) ->
  run_item idx st
  = (inr tt,
     {| ext := w; sent := sent st';
        output_file :=
          format_json_out_put q a ("Error: " ++ exn_str e)%string idx (output_file st');
        question_answer := question_answer st' |}).
Proof.
  intros Hbody He Hqa Hfile. unfold run_item, try_except. rewrite Hbody, He.
  unfold save_error, bind, read_question_answer, save. rewrite !Hqa. simpl.
  now rewrite Hfile.
Qed.

(** The same statement when the body raises what is no [Exception]: the
    [except] clause does not run and nothing is saved. *)
Lemma run_item_lets_through {C : Collaborators} (idx : Z) (st st' : state) (e : exn) :
  process_item idx st = (inl e, st') ->
  is_exception e = false ->
  run_item idx st = (inl e, st').
Proof.
  intros Hbody He. unfold run_item, try_except. now rewrite Hbody, He.
Qed.

(** The same statement when the write of the [except] clause fails:
    nothing catches what the file system raises. *)
Lemma run_item_error_not_saved {C : Collaborators} (idx : Z) (st st' : state)
  (e e' : exn) (q a : string) (f : ledger_file) (w : world) :
  process_item idx st = (inl e, st') ->
  is_exception e = true ->
  question_answer st' = Some (q, a) ->
  ledger_fault (output_file st') (ext st') = (Some (e', f), w) ->
  run_item idx st
  = (inl e',
     {| ext := w; sent := sent st'; output_file := f;
        question_answer := question_answer st' |}).
Proof.
  intros Hbody He Hqa Hfile. unfold run_item, try_except. rewrite Hbody, He.
  unfold save_error, bind, read_question_answer, save. rewrite !Hqa. simpl.
  now rewrite Hfile.
Qed.

(** The same statement when the item cannot be loaded before [question]
    and [answer] were ever assigned: the handler itself raises, nothing is
    saved. *)
Lemma run_item_unbound {C : Collaborators} (idx : Z) (st : state) (e : exn) (w : world) :
  dataset_getitem idx (ext st) = (inl e, w) ->
  is_exception e = true ->
  question_answer st = None ->
  run_item idx st
  = (inl (UnboundLocalError "question"),
     {| ext := w; sent := sent st; output_file := output_file st;
        question_answer := None |}).
Proof.
  intros Hload He Hqa. unfold run_item, try_except, process_item, bind, call.
  rewrite Hload, He. unfold save_error, bind, read_question_answer. simpl.
  rewrite Hqa. reflexivity.
Qed.

(** C2 fails on a run whose first item cannot be loaded.  The dataset
    has two items, the first raises on access, the ledger file is absent:
    [run] ends with the [UnboundLocalError] raised by the handler, no
    entry is recorded for index 0, and index 1 is never processed. *)
Theorem run_aborts_when_first_item_fails :
  @run (scripted [None; Some sample_item] agreeing_reply)
    (@initial_state (scripted [None; Some sample_item] agreeing_reply) tt None)
  = (inl (UnboundLocalError "question"),
     @initial_state (scripted [None; Some sample_item] agreeing_reply) tt None).
Proof. reflexivity. Qed.

(** On the same dataset in the other order the failure of the second
    item is recorded, under the question and answer of the first. *)
Lemma run_records_later_failure :
  output_file
    (snd (@run (scripted [Some sample_item; None] agreeing_reply)
            (@initial_state (scripted [Some sample_item; None] agreeing_reply) tt None)))
  = Some
      [{| index := 0; question := "Is there a nodule?"; ground_truth := "yes";
          prediction := "text" |};
       {| index := 1; question := "Is there a nodule?"; ground_truth := "yes";
          prediction := "Error: cannot load item" |}].
Proof. reflexivity. Qed.

End SMRAgentsFacts.

(* ================================================================== *)
(** * Further properties of the code *)

(** ** utils/output_utils.py: the to-do list and the frame of a write *)

Module LedgerCoverage.
Import OutputUtils PySeq PySeqFacts ListFacts OutputUtilsFacts.

Lemma existsb_perm {A} (f : A -> bool) (l l' : list A) :
  Permutation l l' -> existsb f l = existsb f l'.
Proof.
  intros Hp. apply eq_true_iff_eq. rewrite !existsb_exists.
  split; intros [x [Hin Hf]]; exists x; split; try assumption.
  - now apply (Permutation_in _ Hp).
  - now apply (Permutation_in _ (Permutation_sym Hp)).
Qed.

Lemma filter_finished_filter (total_count : nat) (output : ledger_file) :
  filter_finished total_count output
  = filter (fun i => negb (recorded i output)) (range total_count).
Proof.
  destruct output as [results|]; [reflexivity|].
  unfold filter_finished, recorded. simpl.
  induction (range total_count) as [|i l IH]; simpl; [reflexivity|].
  now rewrite <- IH.
Qed.

Lemma in_range (total_count : nat) (i : Z) :
  In i (range total_count) <-> (0 <= i < Z.of_nat total_count)%Z.
Proof.
  unfold range. rewrite in_map_iff. split.
  - intros [k [<- Hk]]. apply in_seq in Hk. lia.
  - intros Hi. exists (Z.to_nat i). split; [lia|]. apply in_seq. lia.
Qed.

Lemma range_sorted (start len : nat) :
  StronglySorted Z.lt (map Z.of_nat (seq start len)).
Proof.
  revert start. induction len as [|len IH]; intros start; simpl; constructor.
  - apply IH.
  - apply Forall_forall. intros y Hy. apply in_map_iff in Hy.
    destruct Hy as [k [<- Hk]]. apply in_seq in Hk. lia.
Qed.

Lemma recorded_format_json_out_put (q truth pred : string) (idx i : Z)
  (output : ledger_file) :
  recorded i (format_json_out_put q truth pred idx output)
  = (i =? idx)%Z || recorded i output.
Proof.
  unfold recorded. rewrite format_json_out_put_upserted. simpl.
  rewrite <- (existsb_perm _ _ _ (Permutation_map index (sort_by_index_perm _))).
  rewrite upserted_indices. simpl.
  destruct (existsb (Z.eqb idx) (map index (load_results output))) eqn:E.
  - destruct (Z.eqb_spec i idx) as [->|Hne]; [now rewrite E|reflexivity].
  - rewrite existsb_app. simpl. rewrite orb_false_r. apply orb_comm.
Qed.

Lemma upserted_other (result : entry) (results : list entry) (j : Z) :
  j <> index result ->
  filter (fun r => (index r =? j)%Z) (upserted result results)
  = filter (fun r => (index r =? j)%Z) results.
Proof.
  intros Hne. unfold upserted.
  assert (Hres : (index result =? j)%Z = false) by (apply Z.eqb_neq; congruence).
  induction results as [|r rest IH]; simpl.
  - now rewrite Hres.
  - destruct (Z.eqb_spec (index r) (index result)) as [Heq|Hr]; simpl.
    + rewrite Hres. rewrite Heq, Hres. reflexivity.
    + destruct (replace_first (index result) result rest) as [rest' found].
      destruct found; simpl in *;
        destruct (index r =? j)%Z; now rewrite IH.
Qed.

Lemma upserted_length (result : entry) (results : list entry) :
  List.length (upserted result results)
  = (List.length results
     + (if existsb (Z.eqb (index result)) (map index results) then 0 else 1))%nat.
Proof.
  rewrite <- (length_map index), upserted_indices.
  destruct (existsb _ _); rewrite ?length_app, !length_map; simpl; lia.
Qed.

(** X1.  [filter_finished] returns, in ascending order, exactly the
    indices of [range(total_count)] for which the file holds no entry;
    with no file, all of them. *)
Theorem filter_finished_unfinished (total_count : nat) (output : ledger_file) :
  (forall i, In i (filter_finished total_count output)
             <-> (0 <= i < Z.of_nat total_count)%Z /\ recorded i output = false)
  /\ StronglySorted Z.lt (filter_finished total_count output)
  /\ filter_finished total_count None = range total_count.
Proof.
  rewrite filter_finished_filter. split; [|split].
  - intros i. rewrite filter_In, in_range, negb_true_iff. reflexivity.
  - apply StronglySorted_filter, range_sorted.
  - reflexivity.
Qed.

(** X2.  Writing the result of an index takes that index, and no other,
    off the to-do list. *)
Theorem filter_finished_after_write (total_count : nat) (output : ledger_file)
  (q truth pred : string) (idx : Z) :
  filter_finished total_count (format_json_out_put q truth pred idx output)
  = filter (fun i => negb (i =? idx)%Z) (filter_finished total_count output).
Proof.
  rewrite !filter_finished_filter.
  induction (range total_count) as [|i l IH]; simpl; [reflexivity|].
  rewrite recorded_format_json_out_put, negb_orb.
  destruct (recorded i output); simpl.
  - rewrite andb_false_r. exact IH.
  - rewrite andb_true_r. destruct (negb (i =? idx)%Z); now rewrite IH.
Qed.

(** X3.  On a ledger, a write under one index leaves the entries under
    every other index as they were. *)
Theorem format_json_out_put_frame (output : ledger_file) (q truth pred : string)
  (idx j : Z) :
  ledger_state output -> j <> idx ->
  entries_at j (format_json_out_put q truth pred idx output) = entries_at j output.
Proof.
  intros Hd Hne. unfold entries_at. rewrite format_json_out_put_upserted. simpl.
  set (result := {| index := idx; question := q; ground_truth := truth;
                    prediction := pred |}).
  assert (Hperm : Permutation
            (filter (fun r => (index r =? j)%Z) (load_results output))
            (filter (fun r => (index r =? j)%Z)
               (sort_by_index (upserted result (load_results output))))).
  { rewrite <- (upserted_other result) by exact Hne.
    apply filter_perm, sort_by_index_perm. }
  pose proof (at_most_one_entry j (load_results output) Hd) as Hone.
  destruct (filter (fun r => (index r =? j)%Z) (load_results output)) as [|x l].
  - now apply Permutation_nil in Hperm.
  - simpl in Hone. subst l. now apply Permutation_length_1_inv in Hperm.
Qed.

Lemma format_json_out_put_frame_witness :
  entries_at 2
    (format_json_out_put "Q1" "yes" "yes" 1
       (format_json_out_put "Q2" "no" "timeout" 2 None))
  = entries_at 2 (format_json_out_put "Q2" "no" "timeout" 2 None).
Proof.
  apply (format_json_out_put_frame (format_json_out_put "Q2" "no" "timeout" 2 None)
           "Q1" "yes" "yes" 1 2).
  - vm_compute. constructor; [intros []|constructor].
  - discriminate.
Defined.

(** X4.  Whatever file it starts from, [format_json_out_put] leaves a
    file whose array is sorted ascending by index, holds an entry for the
    index, and is one entry longer than before exactly when the index was
    not there. *)
Theorem format_json_out_put_result (output : ledger_file) (q truth pred : string)
  (idx : Z) :
  exists results,
    format_json_out_put q truth pred idx output = Some results
    /\ StronglySorted (fun a b => (index a <= index b)%Z) results
    /\ recorded idx (Some results) = true
    /\ List.length results
       = (List.length (load_results output)
          + (if recorded idx output then 0 else 1))%nat.
Proof.
  rewrite format_json_out_put_upserted. eexists. split; [reflexivity|].
  split; [apply sort_by_index_sorted|]. split.
  - pose proof (recorded_format_json_out_put q truth pred idx idx output) as H.
    rewrite format_json_out_put_upserted, Z.eqb_refl in H. exact H.
  - rewrite <- (Permutation_length (sort_by_index_perm _)).
    apply (upserted_length
             {| index := idx; question := q; ground_truth := truth;
                prediction := pred |}).
Qed.

End LedgerCoverage.

(** ** scripts/SMRAgents.py: what a run records and when it stops *)

Module RunCoverage.
Import OutputUtils SMRAgents LedgerCoverage.

Create HintDb grows.
Create HintDb catch.

Section Agents.
Context {C : Collaborators}.

Lemma extends_refl (st : state) : extends st st.
Proof. split; auto. Qed.

Lemma extends_trans (st1 st2 st3 : state) :
  extends st1 st2 -> extends st2 st3 -> extends st1 st3.
Proof. intros [H1 H2] [H3 H4]. split; auto. Qed.

Lemma grows_ret {A} (a : A) : grows (ret a).
Proof. intros st. apply extends_refl. Qed.

Lemma grows_call {A} (f : world -> (exn + A) * world) : grows (call f).
Proof. intros st. unfold call. destruct (f (ext st)). split; auto. Qed.

Lemma grows_l_engine (p : prompt) : grows (l_engine p).
Proof. intros st. unfold l_engine. destruct (l_get_response p (ext st)). split; auto. Qed.

Lemma grows_assign (q a : string) : grows (assign_question_answer q a).
Proof. intros st. split; simpl; [discriminate|auto]. Qed.

Lemma grows_read : grows read_question_answer.
Proof.
  intros st. unfold read_question_answer.
  destruct (question_answer st); apply extends_refl.
Qed.

Lemma grows_bind {A B} (m : M A) (k : A -> M B) :
  grows m -> (forall x, grows (k x)) -> grows (bind m k).
Proof.
  intros Hm Hk st. unfold bind. specialize (Hm st).
  destruct (m st) as [[e|x] st']; simpl in *; [assumption|].
  eapply extends_trans; [exact Hm|apply Hk].
Qed.

Lemma grows_try {A} (body : M A) (handler : exn -> M A) :
  grows body -> (forall e, grows (handler e)) -> grows (try_except body handler).
Proof.
  intros Hm Hk st. unfold try_except. specialize (Hm st).
  destruct (body st) as [[e|x] st']; simpl in *; [|assumption].
  destruct (is_exception e); [|assumption].
  eapply extends_trans; [exact Hm|apply Hk].
Qed.

Lemma catchable_ret {A} (a : A) : catchable (ret a).
Proof. intros st e. discriminate. Qed.

Lemma catchable_call {A} (f : world -> (exn + A) * world) :
  raises_exceptions f -> catchable (call f).
Proof.
  intros Hf st e. unfold call. specialize (Hf (ext st) e).
  destruct (f (ext st)). exact Hf.
Qed.

Lemma catchable_assign (q a : string) : catchable (assign_question_answer q a).
Proof. intros st e. discriminate. Qed.

Lemma catchable_read : catchable read_question_answer.
Proof.
  intros st e. unfold read_question_answer.
  destruct (question_answer st); simpl; intros H; inversion H. reflexivity.
Qed.

Lemma catchable_bind {A B} (m : M A) (k : A -> M B) :
  catchable m -> (forall x, catchable (k x)) -> catchable (bind m k).
Proof.
  intros Hm Hk st e. unfold bind. specialize (Hm st e).
  destruct (m st) as [[e'|x] st']; simpl in *; [|apply Hk].
  intros H. apply Hm. now inversion H.
Qed.

Lemma bind_inr {A B} (m : M A) (k : A -> M B) (st st' : state) (b : B) :
  bind m k st = (inr b, st') ->
  exists a st1, m st = (inr a, st1) /\ k a st1 = (inr b, st').
Proof.
  unfold bind. destruct (m st) as [[e|a] st1]; [discriminate|].
  intros H. now exists a, st1.
Qed.

(** What follows holds on a working file system. *)
Hypothesis Hfiles : reliable_files.

(** The write goes through and moves the world. *)
Lemma save_goes_through (q truth pred : string) (idx : Z) (st : state) :
  save q truth pred idx st
  = (inr tt,
     {| ext := snd (ledger_fault (output_file st) (ext st)); sent := sent st;
        output_file := format_json_out_put q truth pred idx (output_file st);
        question_answer := question_answer st |}).
Proof.
  unfold save. pose proof (Hfiles (output_file st) (ext st)) as H.
  destruct (ledger_fault (output_file st) (ext st)) as [fault w].
  simpl in H. now subst.
Qed.

(** The read goes through and moves the world. *)
Lemma todo_goes_through (st : state) :
  todo st
  = (inr (filter_finished dataset_len (output_file st)),
     {| ext := snd (ledger_fault (output_file st) (ext st)); sent := sent st;
        output_file := output_file st; question_answer := question_answer st |}).
Proof.
  unfold todo. pose proof (Hfiles (output_file st) (ext st)) as H.
  destruct (ledger_fault (output_file st) (ext st)) as [fault w].
  simpl in H. now subst.
Qed.

Lemma grows_save (q truth pred : string) (idx : Z) : grows (save q truth pred idx).
Proof.
  intros st. rewrite save_goes_through. split; simpl; [auto|]. intros j Hj.
  rewrite recorded_format_json_out_put, Hj. apply orb_true_r.
Qed.

Lemma catchable_save (q truth pred : string) (idx : Z) :
  catchable (save q truth pred idx).
Proof. intros st e. rewrite save_goes_through. discriminate. Qed.

Hint Resolve grows_ret grows_call grows_l_engine grows_save grows_assign
  grows_read : grows.

(** Walks through a chain of [bind]s whose steps are in the database. *)
Ltac grows_chain :=
  repeat first
    [ solve [auto with grows]
    | apply grows_bind; [|intros ?]
    | match goal with
      | |- grows (if ?b then _ else _) => destruct b
      | |- grows (match ?x with (_, _) => _ end) => destruct x
      end ].

Lemma grows_generate (question image path : string) :
  grows (generate_and_refine_scene_graph question image path).
Proof. unfold generate_and_refine_scene_graph. grows_chain. Qed.

Lemma grows_update_each (question description feedback : string)
  (specialists acc : list string) :
  grows (update_each question description feedback specialists acc).
Proof.
  revert acc. induction specialists as [|sp rest IH]; intros acc; simpl.
  - auto with grows.
  - destruct (PyStr.contains _ feedback); [|apply IH].
    apply grows_bind; [auto with grows|]. intros x. apply IH.
Qed.

Lemma grows_update (question description current_opinions feedback : string) :
  grows (update_specialist_opinions question description current_opinions feedback).
Proof.
  unfold update_specialist_opinions.
  apply grows_bind; [apply grows_update_each|]. intros l. auto with grows.
Qed.

Hint Resolve grows_generate grows_update : grows.

Lemma grows_iteration (question description experts_opinions expert_diagnosis : string)
  (iteration : nat) :
  grows (process_feedback_iteration question description experts_opinions
           expert_diagnosis iteration).
Proof. unfold process_feedback_iteration. grows_chain. Qed.

Hint Resolve grows_iteration : grows.

Lemma grows_review_loop (question description : string) (iterations : list nat)
  (experts_opinions expert_diagnosis : string) :
  grows (review_loop question description iterations experts_opinions
           expert_diagnosis).
Proof.
  revert experts_opinions expert_diagnosis.
  induction iterations as [|i rest IH]; intros ops diag; simpl.
  - auto with grows.
  - apply grows_bind; [auto with grows|].
    intros [[ops' diag'] cont]. destruct (negb cont); [auto with grows|apply IH].
Qed.

Hint Resolve grows_review_loop : grows.

Lemma grows_review_and_integrate (question description : string)
  (iterations : list nat) (experts_opinions expert_diagnosis : string) :
  grows (review_and_integrate question description iterations experts_opinions
           expert_diagnosis).
Proof. unfold review_and_integrate, integrate. grows_chain. Qed.

Hint Resolve grows_review_and_integrate : grows.

Lemma grows_process_item (idx : Z) : grows (process_item idx).
Proof. unfold process_item. grows_chain. Qed.

(** A body that completes has saved under the index. *)
Lemma process_item_saved (idx : Z) (st st' : state) :
  process_item idx st = (inr tt, st') -> recorded idx (output_file st') = true.
Proof.
  unfold process_item. intros H.
  repeat (apply bind_inr in H; destruct H as [? [? [_ H]]]).
  rewrite save_goes_through in H. inversion H; subst. simpl.
  rewrite recorded_format_json_out_put, Z.eqb_refl. reflexivity.
Qed.

(** The state in which the body of the [try] ends has the locals
    assigned if they were, or if the item could be loaded. *)
Lemma process_item_bound (idx : Z) (st : state) :
  question_answer st <> None
  \/ (exists it w, dataset_getitem idx (ext st) = (inr it, w)) ->
  question_answer (snd (process_item idx st)) <> None.
Proof.
  intros [Hb|[it [w Hload]]].
  - now apply (grows_process_item idx st).
  - unfold process_item.
    unfold bind at 1. unfold call at 1. rewrite Hload.
    unfold bind at 1. unfold assign_question_answer at 1.
    match goal with
    | |- question_answer (snd (?k ?s)) <> None =>
        assert (Hg : grows k) by grows_chain;
        apply (Hg s); simpl; discriminate
    end.
Qed.

(** What follows also asks that nothing interrupts the run. *)
Hypothesis Hexn : only_exceptions.

Lemma catchable_l_engine (p : prompt) : catchable (l_engine p).
Proof.
  intros st e. unfold l_engine.
  destruct Hexn as [_ [_ [Hl _]]]. specialize (Hl p (ext st) e).
  destruct (l_get_response p (ext st)). exact Hl.
Qed.

Lemma catchable_getitem (idx : Z) : catchable (call (dataset_getitem idx)).
Proof. apply catchable_call, Hexn. Qed.

Lemma catchable_v_engine (p : prompt) (image path : string) :
  catchable (call (v_get_response p image path)).
Proof. apply catchable_call, Hexn. Qed.

Lemma catchable_refine (g : string) : catchable (call (refine_scene_graph g)).
Proof. apply catchable_call, Hexn. Qed.

Lemma catchable_validate (g : string) : catchable (call (validate_scene_graph g)).
Proof. apply catchable_call, Hexn. Qed.

Hint Resolve catchable_ret catchable_assign catchable_read catchable_save
  catchable_l_engine catchable_getitem catchable_v_engine catchable_refine
  catchable_validate : catch.

Ltac catch_chain :=
  repeat first
    [ solve [auto with catch]
    | apply catchable_bind; [|intros ?]
    | match goal with
      | |- catchable (if ?b then _ else _) => destruct b
      | |- catchable (match ?x with (_, _) => _ end) => destruct x
      end ].

Lemma catchable_generate (question image path : string) :
  catchable (generate_and_refine_scene_graph question image path).
Proof. unfold generate_and_refine_scene_graph. catch_chain. Qed.

Lemma catchable_update_each (question description feedback : string)
  (specialists acc : list string) :
  catchable (update_each question description feedback specialists acc).
Proof.
  revert acc. induction specialists as [|sp rest IH]; intros acc; simpl.
  - auto with catch.
  - destruct (PyStr.contains _ feedback); [|apply IH].
    apply catchable_bind; [auto with catch|]. intros x. apply IH.
Qed.

Lemma catchable_update (question description current_opinions feedback : string) :
  catchable
    (update_specialist_opinions question description current_opinions feedback).
Proof.
  unfold update_specialist_opinions.
  apply catchable_bind; [apply catchable_update_each|]. intros l. auto with catch.
Qed.

Hint Resolve catchable_generate catchable_update : catch.

Lemma catchable_iteration
  (question description experts_opinions expert_diagnosis : string) (iteration : nat) :
  catchable (process_feedback_iteration question description experts_opinions
               expert_diagnosis iteration).
Proof. unfold process_feedback_iteration. catch_chain. Qed.

Hint Resolve catchable_iteration : catch.

Lemma catchable_review_loop (question description : string) (iterations : list nat)
  (experts_opinions expert_diagnosis : string) :
  catchable (review_loop question description iterations experts_opinions
               expert_diagnosis).
Proof.
  revert experts_opinions expert_diagnosis.
  induction iterations as [|i rest IH]; intros ops diag; simpl.
  - auto with catch.
  - apply catchable_bind; [auto with catch|].
    intros [[ops' diag'] cont]. destruct (negb cont); [auto with catch|apply IH].
Qed.

Hint Resolve catchable_review_loop : catch.

Lemma catchable_review_and_integrate (question description : string)
  (iterations : list nat) (experts_opinions expert_diagnosis : string) :
  catchable (review_and_integrate question description iterations experts_opinions
               expert_diagnosis).
Proof. unfold review_and_integrate, integrate. catch_chain. Qed.

Hint Resolve catchable_review_and_integrate : catch.

(** Whatever the body of the [try] raises, the [except] clause takes. *)
Lemma catchable_process_item (idx : Z) : catchable (process_item idx).
Proof. unfold process_item. catch_chain. Qed.

(** The [try] statement when the locals are or get assigned: it
    completes, with an entry under the index, and keeps what was
    there. *)
Lemma run_item_completes (idx : Z) (st : state) :
  question_answer st <> None
  \/ (exists it w, dataset_getitem idx (ext st) = (inr it, w)) ->
  exists st',
    run_item idx st = (inr tt, st')
    /\ extends st st'
    /\ question_answer st' <> None
    /\ recorded idx (output_file st') = true.
Proof.
  intros Hcond.
  pose proof (process_item_bound idx st Hcond) as Hb.
  pose proof (grows_process_item idx st) as Hg.
  pose proof (catchable_process_item idx st) as Hc.
  unfold run_item, try_except.
  destruct (process_item idx st) as [[e|[]] st1] eqn:E; simpl in *.
  - rewrite (Hc e eq_refl). unfold save_error, bind, read_question_answer.
    destruct (question_answer st1) as [[q a]|] eqn:Eqa; [|congruence].
    pose proof (grows_save q a ("Error: " ++ exn_str e)%string idx st1) as Hs.
    rewrite save_goes_through in Hs |- *.
    eexists. split; [reflexivity|]. split; [|split].
    + eapply extends_trans; [exact Hg|exact Hs].
    + simpl. congruence.
    + simpl. rewrite recorded_format_json_out_put, Z.eqb_refl. reflexivity.
  - exists st1. split; [reflexivity|]. split; [assumption|]. split; [assumption|].
    now apply (process_item_saved idx st).
Qed.

Lemma run_items_bound (todo_list : list Z) (st : state) :
  question_answer st <> None ->
  exists st',
    run_items todo_list st = (inr tt, st')
    /\ extends st st'
    /\ (forall idx, In idx todo_list -> recorded idx (output_file st') = true).
Proof.
  revert st. induction todo_list as [|idx rest IH]; intros st Hb; simpl.
  - exists st. split; [reflexivity|]. split; [apply extends_refl|]. intros ? [].
  - destruct (run_item_completes idx st (or_introl Hb))
      as [st1 [Hrun [Hext [Hb1 Hrec]]]].
    destruct (IH st1 Hb1) as [st' [Hrest [Hext' Hall]]].
    exists st'. unfold bind. rewrite Hrun. split; [exact Hrest|].
    split; [eapply extends_trans; eassumption|].
    intros j [<-|Hj]; [now apply Hext'|now apply Hall].
Qed.

Lemma run_items_completes (todo_list : list Z) (st : state) :
  question_answer st <> None
  \/ (exists idx rest it w,
        todo_list = idx :: rest /\ dataset_getitem idx (ext st) = (inr it, w)) ->
  exists st',
    run_items todo_list st = (inr tt, st')
    /\ extends st st'
    /\ (forall idx, In idx todo_list -> recorded idx (output_file st') = true).
Proof.
  intros [Hb|[idx [rest [it [w [-> Hload]]]]]]; [now apply run_items_bound|].
  simpl.
  destruct (run_item_completes idx st (or_intror (ex_intro _ it (ex_intro _ w Hload))))
    as [st1 [Hrun [Hext [Hb1 Hrec]]]].
  destruct (run_items_bound rest st1 Hb1) as [st' [Hrest [Hext' Hall]]].
  exists st'. unfold bind. rewrite Hrun. split; [exact Hrest|].
  split; [eapply extends_trans; eassumption|].
  intros j [<-|Hj]; [now apply Hext'|now apply Hall].
Qed.

End Agents.

Section Rounds.
Context {C : Collaborators}.
Hypothesis Hfiles : reliable_files.

(** A round that finds nothing to do ends the run: only the file was
    read. *)
Lemma run_rounds_nothing_left (rounds : nat) (st : state) :
  filter_finished dataset_len (output_file st) = [] ->
  exists st',
    run_rounds rounds st = (inr tt, st')
    /\ sent st' = sent st
    /\ output_file st' = output_file st.
Proof.
  intros H. destruct rounds as [|rounds]; simpl.
  - now exists st.
  - unfold bind. rewrite (todo_goes_through Hfiles), H.
    eexists. split; [reflexivity|]. split; reflexivity.
Qed.

End Rounds.

(** A dataset of examples raises nothing but an [Exception], whatever
    the index, and its file system works. *)
Lemma scripted_reliable (items : list (option item)) (reply : prompt -> exn + string) :
  @reliable_files (scripted items reply).
Proof. intros f w. reflexivity. Qed.

Lemma scripted_only_exceptions (items : list (option item))
  (reply : prompt -> exn + string) :
  (forall p e, reply p = inl e -> is_exception e = true) ->
  @only_exceptions (scripted items reply).
Proof.
  intros Hreply. repeat split; intros; intros w e H; simpl in H;
    try discriminate.
  - destruct (nth_error items (Z.to_nat idx)) as [[it|]|];
      inversion H; reflexivity.
  - inversion H as [Hp]. now apply (Hreply p).
Qed.

Lemma agreeing_reply_returns (p : prompt) (e : exn) :
  agreeing_reply p = inl e -> is_exception e = true.
Proof. unfold agreeing_reply. destruct (is_review p); discriminate. Qed.





End RunCoverage.

(** ** scripts/SMRAgents.py: the steps of the consensus loop *)

Module ConsensusCoverage.
Import OutputUtils SMRAgents.

Lemma find_from_contains (pos : nat) (needle hay : string) (i : nat) :
  PyStr.find_from pos needle hay = Some i -> PyStr.contains needle hay = true.
Proof.
  revert pos. induction hay as [|c hay IH]; intros pos; simpl.
  - destruct (PyStr.starts_with needle ""); [reflexivity|discriminate].
  - destruct (PyStr.starts_with needle (String c hay)); [reflexivity|].
    simpl. apply IH.
Qed.

Lemma substring_none (n : nat) (s : string) : substring n 0 s = "".
Proof.
  revert s. induction n as [|n IH]; intros s; destruct s; simpl; auto.
Qed.

Section Agents.
Context {C : Collaborators}.

Lemma undecided_iteration
  (question description experts_opinions expert_diagnosis : string)
  (iteration : nat) (st : state) (evaluation : string) (w : world) :
  l_get_response
    (review_prompt question description experts_opinions expert_diagnosis iteration)
    (ext st) = (inr evaluation, w) ->
  undecided evaluation = true ->
  process_feedback_iteration question description experts_opinions expert_diagnosis
    iteration st
  = (inr (experts_opinions, expert_diagnosis, true),
     after_prompt
       (review_prompt question description experts_opinions expert_diagnosis iteration)
       w st).
Proof.
  intros Hreply Hund. unfold undecided in Hund.
  apply andb_true_iff in Hund. destruct Hund as [Hund Hdiag].
  apply andb_true_iff in Hund. destruct Hund as [Hcons Hspec].
  apply negb_true_iff in Hcons, Hspec, Hdiag.
  unfold process_feedback_iteration, bind, l_engine.
  rewrite Hreply, Hcons, Hspec, Hdiag. reflexivity.
Qed.

Lemma undecided_loop (question description experts_opinions expert_diagnosis : string)
  (iterations : list nat) (st : state) :
  (forall p w, is_review p = true ->
     exists evaluation w',
       l_get_response p w = (inr evaluation, w') /\ undecided evaluation = true) ->
  exists st',
    review_loop question description iterations experts_opinions expert_diagnosis st
    = (inr (experts_opinions, expert_diagnosis), st')
    /\ sent st'
       = sent st
         ++ map (review_prompt question description experts_opinions expert_diagnosis)
              iterations
    /\ output_file st' = output_file st.
Proof.
  intros Hvague. revert st. induction iterations as [|i rest IH]; intros st.
  - exists st. simpl. now rewrite app_nil_r.
  - destruct (Hvague (review_prompt question description experts_opinions
                        expert_diagnosis i) (ext st)) as [ev [w [Hreply Hund]]].
    { unfold review_prompt. now destruct (Nat.eqb i 0). }
    destruct (IH (after_prompt
                    (review_prompt question description experts_opinions
                       expert_diagnosis i) w st)) as [st' [Hloop [Hsent Hout]]].
    exists st'. simpl. unfold bind at 1.
    rewrite (undecided_iteration _ _ _ _ _ _ _ _ Hreply Hund). simpl.
    split; [exact Hloop|]. split; [|exact Hout].
    rewrite Hsent. simpl. now rewrite <- app_assoc.
Qed.

Lemma update_each_unmentioned (question description feedback : string)
  (specialists acc : list string) (st : state) :
  (forall sp, In sp specialists ->
     PyStr.contains (PyStr.strip (PyStr.first_line sp)) feedback = false) ->
  update_each question description feedback specialists acc st
  = (inr (acc ++ map (fun sp => ("Expert: " ++ sp)%string) specialists), st).
Proof.
  revert acc. induction specialists as [|sp rest IH]; intros acc Hnone; simpl.
  - now rewrite app_nil_r.
  - rewrite (Hnone sp) by now left.
    rewrite IH by (intros sp' Hin; apply Hnone; now right).
    now rewrite <- app_assoc.
Qed.

Lemma update_each_prompts (question description feedback : string)
  (specialists acc : list string) (st : state) :
  exists n,
    (n <= List.length specialists)%nat
    /\ sent (snd (update_each question description feedback specialists acc st))
       = sent st ++ repeat (specialists_rethink_prompt question description feedback) n.
Proof.
  revert acc st. induction specialists as [|sp rest IH]; intros acc st; simpl.
  - exists 0%nat. simpl. now rewrite app_nil_r.
  - destruct (PyStr.contains _ feedback).
    + unfold bind, l_engine.
      destruct (l_get_response _ (ext st)) as [[e|reply] w]; simpl.
      * exists 1%nat. split; [lia|reflexivity].
      * match goal with
        | |- context [update_each _ _ _ rest ?acc' ?st'] =>
            destruct (IH acc' st') as [n [Hn Hsent]]
        end.
        exists (S n). split; [lia|]. rewrite Hsent. simpl.
        now rewrite <- app_assoc.
    + destruct (IH (acc ++ [("Expert: " ++ sp)%string]) st) as [n [Hn Hsent]].
      exists n. split; [lia|exact Hsent].
Qed.

End Agents.

(** X7.  The bound of three passes is reached: with a language engine
    whose reviews neither declare consistency nor carry a feedback
    section, the loop of [run] makes all three review calls, the first
    with the evaluation prompt and the next two with the follow-up prompt,
    and ends with the opinions and the diagnosis it started from. *)
Theorem review_loop_runs_out {C : Collaborators}
  (question description experts_opinions expert_diagnosis : string) (st : state) :
  (forall p w, is_review p = true ->
     exists evaluation w',
       l_get_response p w = (inr evaluation, w') /\ undecided evaluation = true) ->
  exists st',
    review_loop question description (seq 0 max_iterations) experts_opinions
      expert_diagnosis st
    = (inr (experts_opinions, expert_diagnosis), st')
    /\ sent st'
       = sent st
         ++ [expert_evaluation_prompt question description expert_diagnosis
               experts_opinions;
             expert_evaluation_followup_prompt question description experts_opinions
               expert_diagnosis;
             expert_evaluation_followup_prompt question description experts_opinions
               expert_diagnosis]
    /\ review_passes (sent st') = (review_passes (sent st) + 3)%nat.
Proof.
  intros Hvague.
  destruct (undecided_loop question description experts_opinions expert_diagnosis
              (seq 0 max_iterations) st Hvague) as [st' [Hloop [Hsent _]]].
  exists st'. split; [exact Hloop|]. split; [exact Hsent|].
  rewrite Hsent. unfold review_passes. rewrite filter_app, length_app. reflexivity.
Qed.

Lemma review_loop_runs_out_witness :
  exists st',
    @review_loop (scripted [Some sample_item] vague_reply)
      "Is there a nodule?" "scene graph" [0; 1; 2]%nat "opinions" "diagnosis"
      (@initial_state (scripted [Some sample_item] vague_reply) tt None)
    = (inr ("opinions", "diagnosis"), st')
    /\ review_passes (sent st') = 3%nat.
Proof.
  destruct (@review_loop_runs_out (scripted [Some sample_item] vague_reply)
              "Is there a nodule?" "scene graph" "opinions" "diagnosis"
              (@initial_state (scripted [Some sample_item] vague_reply) tt None))
    as [st' [Hloop [_ Hpasses]]].
  - intros p w Hp. exists "The opinions differ in places.", w.
    simpl. unfold vague_reply. rewrite Hp. split; reflexivity.
  - exists st'. split; [exact Hloop|exact Hpasses].
Defined.

(** X8.  A description returned by [generate_and_refine_scene_graph] is
    the graph the visual engine produced, unless there is a refiner and
    the refined graph passed [validate_scene_graph]: a refined graph that
    fails validation is never returned. *)
Theorem scene_graph_initial_or_validated {C : Collaborators}
  (question image path : string) (st st' : state) (description : string) :
  generate_and_refine_scene_graph question image path st = (inr description, st') ->
  exists initial w1,
    v_get_response (description_prompt question) image path (ext st)
    = (inr initial, w1)
    /\ (description = initial
        \/ (has_refiner = true
            /\ exists w2 v w3,
                 refine_scene_graph initial w1 = (inr description, w2)
                 /\ validate_scene_graph description w2 = (inr v, w3)
                 /\ is_valid v = true)).
Proof.
  unfold generate_and_refine_scene_graph, bind, call. simpl.
  destruct (v_get_response _ image path (ext st)) as [[e|initial] w1];
    [discriminate|].
  intros H. exists initial, w1. split; [reflexivity|].
  destruct has_refiner; [|inversion H; now left]. simpl in H.
  destruct (refine_scene_graph initial w1) as [[e|refined] w2]; [discriminate|].
  simpl in H.
  destruct (validate_scene_graph refined w2) as [[e|v] w3] eqn:Ev; [discriminate|].
  simpl in H. destruct (is_valid v) eqn:Evalid; simpl in H; inversion H; subst.
  - right. split; [reflexivity|]. now exists w2, v, w3.
  - now left.
Qed.

Lemma scene_graph_initial_or_validated_witness :
  @generate_and_refine_scene_graph (refining (fun _ => true))
    "Is there a nodule?" "image" "img/0.png"
    (@initial_state (refining (fun _ => true)) tt None)
  = (inr "scene graph, refined", @initial_state (refining (fun _ => true)) tt None)
  /\ exists initial w1,
       @v_get_response (refining (fun _ => true))
         (description_prompt "Is there a nodule?") "image" "img/0.png" tt
       = (inr initial, w1)
       /\ ("scene graph, refined" = initial
           \/ (@has_refiner (refining (fun _ => true)) = true
               /\ exists w2 v w3,
                    @refine_scene_graph (refining (fun _ => true)) initial w1
                    = (inr "scene graph, refined", w2)
                    /\ @validate_scene_graph (refining (fun _ => true))
                         "scene graph, refined" w2 = (inr v, w3)
                    /\ is_valid v = true)).
Proof.
  split; [reflexivity|].
  apply (@scene_graph_initial_or_validated (refining (fun _ => true))
           "Is there a nodule?" "image" "img/0.png"
           (@initial_state (refining (fun _ => true)) tt None)
           (@initial_state (refining (fun _ => true)) tt None)
           "scene graph, refined").
  reflexivity.
Defined.

(** With a refiner whose graph fails validation, the graph of the visual
    engine comes back. *)
Lemma rejected_refinement_falls_back :
  @generate_and_refine_scene_graph (refining (fun _ => false))
    "Is there a nodule?" "image" "img/0.png"
    (@initial_state (refining (fun _ => false)) tt None)
  = (inr "scene graph", @initial_state (refining (fun _ => false)) tt None).
Proof. reflexivity. Qed.

(** X9.  When the review carries both feedback sections with the one for
    the diagnostic specialist first, the slice taken for the specialists
    is empty: no specialist is asked again, the opinions stay as they
    were, and only the diagnosis is reassessed, from those opinions. *)
Theorem specialist_feedback_after_diagnostic_ignored {C : Collaborators}
  (question description experts_opinions expert_diagnosis : string)
  (iteration : nat) (st : state) (evaluation : string) (w : world) (s e : nat) :
  let p := review_prompt question description experts_opinions expert_diagnosis
             iteration in
  l_get_response p (ext st) = (inr evaluation, w) ->
  PyStr.contains consistent_phrase (PyStr.lower evaluation) = false ->
  PyStr.find specialists_marker evaluation = Some s ->
  PyStr.find diagnostic_marker evaluation = Some e ->
  (e <= s)%nat ->
  feedback_slice evaluation = ""
  /\ process_feedback_iteration question description experts_opinions expert_diagnosis
       iteration st
     = bind (l_engine (diagnostic_reassessment_prompt question description
                         experts_opinions))
         (fun diagnosis => ret (experts_opinions, diagnosis, true))
         (after_prompt p w st).
Proof.
  intros p Hreply Hcons Hs He Hle.
  assert (Hslice : feedback_slice evaluation = "").
  { unfold feedback_slice. rewrite Hs, He. unfold PyStr.slice.
    replace (e - s)%nat with 0%nat by lia. now rewrite substring_none. }
  split; [exact Hslice|].
  unfold process_feedback_iteration. unfold bind at 1. unfold l_engine at 1.
  fold p. rewrite Hreply, Hcons.
  rewrite (find_from_contains _ _ _ _ Hs), (find_from_contains _ _ _ _ He), Hslice.
  reflexivity.
Qed.

Lemma specialist_feedback_after_diagnostic_ignored_witness :
  feedback_slice
    "Feedback to Diagnostic Specialist: recheck. Feedback to Specialist Experts: Radiologist, look again."
  = "".
Proof.
  apply (@specialist_feedback_after_diagnostic_ignored
           (panel ["Radiologist"] swapped_reply)
           "Is there a nodule?" "scene graph" "Expert: Radiologist" "diagnosis" 0%nat
           (@initial_state (panel ["Radiologist"] swapped_reply) tt None)
           "Feedback to Diagnostic Specialist: recheck. Feedback to Specialist Experts: Radiologist, look again."
           tt 44%nat 0%nat); try reflexivity.
  vm_compute. lia.
Defined.

(** X10.  When no specialist found in the current opinions is named in
    the feedback, [update_specialist_opinions] calls no engine and returns
    the found texts, each behind "Expert: ", joined by blank lines; when
    none is found at all the result is the empty text. *)
Theorem update_unmentioned_specialists {C : Collaborators}
  (question description current_opinions feedback : string) (st : state) :
  (forall sp, In sp (findall_experts current_opinions) ->
     PyStr.contains (PyStr.strip (PyStr.first_line sp)) feedback = false) ->
  update_specialist_opinions question description current_opinions feedback st
  = (inr (PyStr.join (newline ++ newline)%string
            (map (fun sp => ("Expert: " ++ sp)%string)
               (findall_experts current_opinions))),
     st).
Proof.
  intros Hnone. unfold update_specialist_opinions, bind.
  now rewrite (update_each_unmentioned _ _ _ _ [] st Hnone).
Qed.

Lemma update_unmentioned_specialists_witness :
  @update_specialist_opinions (panel ["Radiologist"; "Pathologist"] agreeing_reply)
    "Is there a nodule?" "scene graph" "opinions" "Feedback to Specialist Experts: none"
    (@initial_state (panel ["Radiologist"; "Pathologist"] agreeing_reply) tt None)
  = (inr (PyStr.join (newline ++ newline)%string
            ["Expert: Radiologist"; "Expert: Pathologist"]),
     @initial_state (panel ["Radiologist"; "Pathologist"] agreeing_reply) tt None).
Proof.
  apply (@update_unmentioned_specialists
           (panel ["Radiologist"; "Pathologist"] agreeing_reply)).
  intros sp [<-|[<-|[]]]; reflexivity.
Defined.

(** X11.  Every engine call of [update_specialist_opinions] sends the same
    prompt, built from the feedback alone and not from the specialist it
    is made for, and there are at most as many calls as specialists found
    in the current opinions. *)
Theorem update_sends_one_prompt {C : Collaborators}
  (question description current_opinions feedback : string) (st : state) :
  exists n,
    (n <= List.length (findall_experts current_opinions))%nat
    /\ sent (snd (update_specialist_opinions question description current_opinions
                    feedback st))
       = sent st ++ repeat (specialists_rethink_prompt question description feedback) n.
Proof.
  destruct (update_each_prompts question description feedback
              (findall_experts current_opinions) [] st) as [n [Hn Hsent]].
  exists n. split; [exact Hn|].
  unfold update_specialist_opinions, bind.
  destruct (update_each _ _ _ _ _ st) as [[e|l] st']; exact Hsent.
Qed.

End ConsensusCoverage.

(** ** knowledge_base/retriever.py: ranking, budget and scene graphs *)

Module RetrieverCoverage.
Import Preprocessor Retriever PySeq PySeqFacts ListFacts PyDictFacts
  PreprocessorFacts RetrieverFacts.

Lemma StronglySorted_app_cross {A} (R : A -> A -> Prop) (l1 l2 : list A) :
  StronglySorted R (l1 ++ l2) -> forall x y, In x l1 -> In y l2 -> R x y.
Proof.
  induction l1 as [|a l1 IH]; simpl; intros Hs x y Hx Hy; [contradiction|].
  apply StronglySorted_inv in Hs. destruct Hs as [Hs Hall].
  destruct Hx as [<-|Hx]; [|now apply IH].
  rewrite Forall_forall in Hall. apply Hall. apply in_or_app. now right.
Qed.

Lemma slice_to_incl {A} (stop : Z) (l : list A) (x : A) :
  In x (slice_to stop l) -> In x l.
Proof.
  unfold slice_to. intros H.
  rewrite <- (firstn_skipn (Z.to_nat
    (if (stop <? 0)%Z then Z.max 0 (stop + Z.of_nat (List.length l))
     else Z.min stop (Z.of_nat (List.length l)))) l).
  apply in_or_app. now left.
Qed.

Lemma contains_empty (s : string) : PyStr.contains "" s = true.
Proof. now destruct s. Qed.

Lemma nonempty_true {A} (l : list A) : nonempty l = true <-> l <> [].
Proof. destruct l; simpl; split; congruence. Qed.

Section Retrieval.
Context {V : Vectorizer}.
Variable self : KnowledgeBaseRetriever.

Lemma extend_from_similar_buckets (max_triplets : Z) (n : nat)
  (retrieved : list triplet) (similar : string * Q) :
  Forall (in_some_bucket self) retrieved ->
  Forall (in_some_bucket self) (extend_from_similar self max_triplets n retrieved similar).
Proof.
  intros Hall. unfold extend_from_similar.
  destruct (PyDict.get (fst similar) (entity_index self)) as [b|] eqn:E;
    [|assumption].
  destruct (_ >? 0)%Z; [|assumption].
  apply Forall_app. split; [assumption|].
  apply Forall_forall. intros t Ht. apply slice_to_incl in Ht.
  now exists (fst similar), b.
Qed.

Lemma retrieved_buckets (entity : string) (max_triplets : Z) :
  Forall (in_some_bucket self) (retrieve_entity_knowledge self entity max_triplets).
Proof.
  unfold retrieve_entity_knowledge.
  apply Forall_forall. intros t Ht. apply slice_to_incl in Ht. revert t Ht.
  apply Forall_forall.
  generalize (List.length (find_similar_entities self entity 3)). intros n.
  assert (Hdirect : Forall (in_some_bucket self)
            match PyDict.get entity (entity_index self) with
            | Some bucket => slice_to (max_triplets / 2) bucket
            | None => []
            end).
  { destruct (PyDict.get entity (entity_index self)) as [b|] eqn:E; [|constructor].
    apply Forall_forall. intros t Ht. apply slice_to_incl in Ht. now exists entity, b. }
  revert Hdirect.
  generalize (match PyDict.get entity (entity_index self) with
              | Some bucket => slice_to (max_triplets / 2) bucket
              | None => []
              end).
  induction (find_similar_entities self entity 3) as [|sim rest IH];
    intros acc Hacc; simpl; [assumption|].
  apply IH. now apply extend_from_similar_buckets.
Qed.

Lemma add_entity_from_retrieval (graph : scene_graph) (max_k : Z)
  (d : PyDict.dict (list triplet)) (e : string) :
  In e (extract_entities_from_scene_graph graph) ->
  (forall k v, PyDict.get k d = Some v -> from_retrieval self graph max_k k v) ->
  forall k v, PyDict.get k (add_entity_knowledge self max_k d e) = Some v ->
              from_retrieval self graph max_k k v.
Proof.
  intros He Hd k v. unfold add_entity_knowledge.
  destruct (nonempty _) eqn:En; [|apply Hd].
  destruct (string_dec e k) as [<-|Hne].
  - rewrite get_set_same. intros H. inversion H; subst.
    split; [now apply nonempty_true|]. left. now split.
  - rewrite get_set_other by assumption. apply Hd.
Qed.

Lemma add_relation_from_retrieval (graph : scene_graph) (max_k : Z)
  (d : PyDict.dict (list triplet)) (r : sg_relation) :
  (forall k v, PyDict.get k d = Some v -> from_retrieval self graph max_k k v) ->
  forall k v, PyDict.get k (add_relation_knowledge self graph d r) = Some v ->
              from_retrieval self graph max_k k v.
Proof.
  intros Hd k v. unfold add_relation_knowledge.
  destruct (resolve_relation graph r) as [s o].
  destruct (truthy s && truthy o); [|apply Hd].
  destruct (nonempty _) eqn:En; [|apply Hd].
  match goal with
  | |- PyDict.get k (PyDict.set ?key _ _) = _ -> _ =>
      destruct (string_dec key k) as [Hk|Hne]
  end.
  - rewrite <- Hk, get_set_same. intros H. inversion H; subst v.
    split; [now apply nonempty_true|]. right.
    now exists (get_or "" s), (get_or "" (rel_predicate r)), (get_or "" o).
  - rewrite get_set_other by assumption. apply Hd.
Qed.

Lemma fold_entities_from_retrieval (graph : scene_graph) (max_k : Z)
  (es : list string) (d : PyDict.dict (list triplet)) :
  (forall e, In e es -> In e (extract_entities_from_scene_graph graph)) ->
  (forall k v, PyDict.get k d = Some v -> from_retrieval self graph max_k k v) ->
  forall k v, PyDict.get k (fold_left (add_entity_knowledge self max_k) es d) = Some v ->
              from_retrieval self graph max_k k v.
Proof.
  revert d. induction es as [|e es IH]; intros d Hes Hd; simpl; [exact Hd|].
  apply IH; [intros e' He'; apply Hes; now right|].
  apply add_entity_from_retrieval; [apply Hes; now left|exact Hd].
Qed.

Lemma fold_relations_from_retrieval (graph : scene_graph) (max_k : Z)
  (rs : list sg_relation) (d : PyDict.dict (list triplet)) :
  (forall k v, PyDict.get k d = Some v -> from_retrieval self graph max_k k v) ->
  forall k v, PyDict.get k (fold_left (add_relation_knowledge self graph) rs d) = Some v ->
              from_retrieval self graph max_k k v.
Proof.
  revert d. induction rs as [|r rs IH]; intros d Hd; simpl; [exact Hd|].
  apply IH. now apply add_relation_from_retrieval.
Qed.

(** The dictionary after the mentions [es]: a key is there exactly when
    it is one of the mentions with something retrieved, and holds that. *)
Lemma fold_entities_exact (max_k : Z) (es done : list string)
  (d : PyDict.dict (list triplet)) :
  (forall k v, PyDict.get k d = Some v
     <-> In k done /\ v = retrieve_entity_knowledge self k max_k /\ v <> []) ->
  forall k v, PyDict.get k (fold_left (add_entity_knowledge self max_k) es d) = Some v
     <-> In k (done ++ es) /\ v = retrieve_entity_knowledge self k max_k /\ v <> [].
Proof.
  revert done d. induction es as [|e es IH]; intros done d Hd k v; simpl.
  - rewrite app_nil_r. apply Hd.
  - replace (done ++ e :: es) with ((done ++ [e]) ++ es)
      by (now rewrite <- app_assoc).
    apply IH. clear k v. intros k v. unfold add_entity_knowledge.
    rewrite in_app_iff. simpl.
    destruct (nonempty (retrieve_entity_knowledge self e max_k)) eqn:En.
    + apply nonempty_true in En.
      destruct (string_dec e k) as [<-|Hne].
      * rewrite get_set_same. split.
        -- intros H. inversion H; subst. auto.
        -- intros [_ [-> _]]. reflexivity.
      * rewrite get_set_other by assumption. rewrite Hd. intuition congruence.
    + rewrite Hd. split; [intuition|].
      intros [[Hin|[<-|[]]] [Hv Hne]]; [auto|].
      subst v. destruct (retrieve_entity_knowledge self e max_k);
        [congruence|discriminate].
Qed.

End Retrieval.

(** X12.  The positions kept by [np.argsort(similarities)[-top_k:]] are
    the best ones: no entity left out has a higher score than an entity
    kept, for any [top_k]. *)
Theorem top_indices_are_best {V : Vectorizer} (self : KnowledgeBaseRetriever)
  (query_entity : string) (top_k : Z) (i j : nat) :
  (i < List.length (entity_list self))%nat ->
  ~ In i (top_indices self query_entity top_k) ->
  In j (top_indices self query_entity top_k) ->
  (nth i (similarities self query_entity) 0 <= nth j (similarities self query_entity) 0)%Q.
Proof.
  unfold top_indices, slice_from. rewrite <- !in_rev.
  set (sims := similarities self query_entity).
  set (m := Z.to_nat _). intros Hi Hout Hin.
  assert (Hi' : In i (argsort sims)).
  { apply in_argsort. unfold sims. now rewrite similarities_length. }
  rewrite <- (firstn_skipn m (argsort sims)) in Hi'.
  apply in_app_or in Hi'. destruct Hi' as [Hfirst|Hlast]; [|contradiction].
  pose proof (argsort_sorted sims) as Hs.
  rewrite <- (firstn_skipn m (argsort sims)) in Hs.
  exact (StronglySorted_app_cross _ _ _ Hs i j Hfirst Hin).
Qed.

Lemma top_indices_are_best_witness :
  (nth 1 (@similarities exact_match (load scenario_store) "Lung Nodule") 0
   <= nth 0 (@similarities exact_match (load scenario_store) "Lung Nodule") 0)%Q.
Proof.
  apply (@top_indices_are_best exact_match (load scenario_store) "Lung Nodule" 1 1 0).
  - vm_compute. lia.
  - vm_compute. intros [H|[]]. discriminate.
  - vm_compute. now left.
Defined.

(** X13.  [retrieve_entity_knowledge] returns only triplets held by
    buckets of the entity index; over the index built from a store, only
    triplets of that store. *)
Theorem retrieve_entity_knowledge_stored {V : Vectorizer} (store : list triplet)
  (entity : string) (max_triplets : Z) (t : triplet) :
  In t (retrieve_entity_knowledge (load store) entity max_triplets) ->
  In t store
  /\ exists k b, PyDict.get k (create_entity_index store) = Some b /\ In t b.
Proof.
  intros Hin.
  pose proof (retrieved_buckets (load store) entity max_triplets) as Hall.
  rewrite Forall_forall in Hall. destruct (Hall t Hin) as [k [b [Hget Hb]]].
  simpl in Hget. split; [|now exists k, b].
  apply get_create_some in Hget. destruct Hget as [-> _].
  now apply in_bucket_of in Hb.
Qed.

Lemma retrieve_entity_knowledge_stored_witness :
  In lung_size scenario_store.
Proof.
  apply (@retrieve_entity_knowledge_stored exact_match scenario_store
           "Lung Nodule" 4 lung_size).
  vm_compute. right. now left.
Defined.

(** X14.  An entity that is no key of the index and has no score above
    the threshold yields the empty list, for any budget. *)
Theorem retrieve_entity_knowledge_no_match {V : Vectorizer}
  (self : KnowledgeBaseRetriever) (entity : string) (max_triplets : Z) :
  PyDict.get entity (entity_index self) = None ->
  (forall s, In s (similarities self entity) -> (s <= threshold)%Q) ->
  retrieve_entity_knowledge self entity max_triplets = [].
Proof.
  intros Hget Hnone. unfold retrieve_entity_knowledge.
  rewrite Hget, (found_none self entity 3 Hnone). simpl.
  unfold slice_to. now rewrite firstn_nil.
Qed.

Lemma retrieve_entity_knowledge_no_match_witness :
  @retrieve_entity_knowledge exact_match (load scenario_store) "pleural effusion" 10
  = [].
Proof.
  apply (@retrieve_entity_knowledge_no_match exact_match (load scenario_store)).
  - reflexivity.
  - intros s [<-|[<-|[<-|[]]]]; vm_compute; congruence.
Defined.

(** X15.  The exact bucket is read twice when the entity's only similar
    entity is the entity itself: for a budget [n >= 0] the result is the
    first [n // 2] triplets of the bucket followed by the bucket's first
    triplets again, up to [n] in all. *)
Theorem retrieve_exact_entity_repeats {V : Vectorizer}
  (self : KnowledgeBaseRetriever) (entity : string) (max_triplets : Z)
  (bucket : list triplet) (score : Q) :
  (0 <= max_triplets)%Z ->
  PyDict.get entity (entity_index self) = Some bucket ->
  find_similar_entities self entity 3 = [(entity, score)] ->
  let direct := firstn (Z.to_nat (max_triplets / 2)) bucket in
  retrieve_entity_knowledge self entity max_triplets
  = direct ++ firstn (Z.to_nat max_triplets - List.length direct) bucket.
Proof.
  intros Hn Hget Hfound direct. unfold retrieve_entity_knowledge.
  rewrite Hget, Hfound. simpl. unfold extend_from_similar. simpl. rewrite Hget.
  assert (Hhalf : (0 <= max_triplets / 2)%Z) by (apply Z.div_pos; lia).
  rewrite (slice_to_nonneg (max_triplets / 2)) by assumption. fold direct.
  assert (Hlen : (List.length direct <= Z.to_nat (max_triplets / 2))%nat)
    by (unfold direct; rewrite length_firstn; lia).
  assert (Hle : (max_triplets / 2 <= max_triplets)%Z)
    by (apply Z.div_le_upper_bound; lia).
  destruct (max_triplets - Z.of_nat (List.length direct) >? 0)%Z eqn:E.
  - rewrite Z.div_1_r.
    rewrite (slice_to_nonneg (max_triplets - Z.of_nat (List.length direct))) by lia.
    replace (Z.to_nat (max_triplets - Z.of_nat (List.length direct)))
      with (Z.to_nat max_triplets - List.length direct)%nat by lia.
    rewrite slice_to_nonneg by assumption.
    apply firstn_all2. rewrite length_app, length_firstn. lia.
  - rewrite Z.gtb_ltb in E. apply Z.ltb_ge in E.
    replace (Z.to_nat max_triplets - List.length direct)%nat with 0%nat by lia.
    simpl. rewrite app_nil_r. rewrite slice_to_nonneg by assumption.
    apply firstn_all2. lia.
Qed.

Lemma retrieve_exact_entity_repeats_witness :
  @retrieve_entity_knowledge exact_match (load scenario_store) "lung nodule" 4
  = [lung_located; lung_size; lung_located; lung_size].
Proof.
  apply (@retrieve_exact_entity_repeats exact_match (load scenario_store)
           "lung nodule" 4 [lung_located; lung_size] 1%Q); try reflexivity.
  lia.
Defined.

(** X16.  An empty query predicate matches every stored predicate: the
    relationship query then returns the first five triplets whose subject
    or object matches, whatever their predicate. *)
Theorem retrieve_relationship_empty_predicate (self : KnowledgeBaseRetriever)
  (subject obj : string) :
  retrieve_relationship_knowledge self subject "" obj
  = firstn 5 (filter (related_entities subject obj) (triplets self)).
Proof.
  unfold retrieve_relationship_knowledge.
  rewrite slice_to_nonneg by lia. change (Z.to_nat 5) with 5%nat. f_equal.
  rewrite (fold_left_append_nested (similar_predicate "")
             (related_entities subject obj) (triplets self) []).
  apply filter_ext. intros t. unfold similar_predicate. simpl PyStr.lower.
  now rewrite contains_empty.
Qed.

(** X17.  Every entry of the dictionary built for a scene graph holds a
    non-empty list that is the retrieval for its key: the entity
    knowledge of a mention of the graph, or the relationship knowledge of
    the three texts its key is made of; with a budget [>= 0] no list is
    longer than the larger of the budget and five. *)
Theorem scene_graph_knowledge_sound {V : Vectorizer} (self : KnowledgeBaseRetriever)
  (graph : scene_graph) (max_k : Z) (k : string) (v : list triplet) :
  (0 <= max_k)%Z ->
  PyDict.get k (retrieve_knowledge_for_scene_graph self graph max_k) = Some v ->
  v <> []
  /\ ((In k (extract_entities_from_scene_graph graph)
       /\ v = retrieve_entity_knowledge self k max_k)
      \/ exists s p o,
           k = relation_key s p o /\ v = retrieve_relationship_knowledge self s p o)
  /\ (Z.of_nat (List.length v) <= Z.max max_k 5)%Z.
Proof.
  intros Hk Hget.
  assert (Hfrom : from_retrieval self graph max_k k v).
  { revert Hget. unfold retrieve_knowledge_for_scene_graph.
    assert (Hents : forall k v,
      PyDict.get k (fold_left (add_entity_knowledge self max_k)
                      (extract_entities_from_scene_graph graph) []) = Some v ->
      from_retrieval self graph max_k k v).
    { apply fold_entities_from_retrieval; [auto|]. intros ? ? H. discriminate. }
    destruct (sg_relationships graph) as [rs|]; [|apply Hents].
    now apply fold_relations_from_retrieval. }
  destruct Hfrom as [Hne Hcases]. split; [exact Hne|]. split; [exact Hcases|].
  destruct Hcases as [[_ ->]|[s [p [o [_ ->]]]]].
  - pose proof (slice_to_length max_k
      (fold_left (extend_from_similar self max_k
                    (List.length (find_similar_entities self k 3)))
         (find_similar_entities self k 3)
         match PyDict.get k (entity_index self) with
         | Some bucket => slice_to (max_k / 2) bucket
         | None => []
         end) Hk) as Hlen.
    unfold retrieve_entity_knowledge. lia.
  - unfold retrieve_relationship_knowledge.
    pose proof (slice_to_length 5
      (fold_left
         (fun retrieved_triplets t =>
            if similar_predicate p t
            then if related_entities s o t
                 then retrieved_triplets ++ [t]
                 else retrieved_triplets
            else retrieved_triplets) (triplets self) [])) as Hlen.
    lia.
Qed.

Lemma scene_graph_knowledge_sound_witness :
  [lung_located; lung_size; lung_located; lung_size] <> []
  /\ ((In "lung nodule" (extract_entities_from_scene_graph nodule_graph)
       /\ [lung_located; lung_size; lung_located; lung_size]
          = @retrieve_entity_knowledge exact_match (load scenario_store)
              "lung nodule" 5)
      \/ exists s p o,
           "lung nodule" = relation_key s p o
           /\ [lung_located; lung_size; lung_located; lung_size]
              = retrieve_relationship_knowledge (load scenario_store) s p o)
  /\ (Z.of_nat (List.length [lung_located; lung_size; lung_located; lung_size])
      <= Z.max 5 5)%Z.
Proof.
  apply (@scene_graph_knowledge_sound exact_match (load scenario_store)
           nodule_graph 5 "lung nodule").
  - lia.
  - reflexivity.
Defined.

(** X18.  For a scene graph without relationships the dictionary holds
    exactly the mentions for which something is retrieved, each with its
    retrieval: a mention that occurs twice overwrites its entry with the
    same list. *)
Theorem scene_graph_knowledge_entities {V : Vectorizer} (self : KnowledgeBaseRetriever)
  (graph : scene_graph) (max_k : Z) (k : string) (v : list triplet) :
  sg_relationships graph = None ->
  (PyDict.get k (retrieve_knowledge_for_scene_graph self graph max_k) = Some v
   <-> In k (extract_entities_from_scene_graph graph)
       /\ v = retrieve_entity_knowledge self k max_k
       /\ v <> []).
Proof.
  intros Hnone. unfold retrieve_knowledge_for_scene_graph. rewrite Hnone.
  apply (fold_entities_exact self max_k (extract_entities_from_scene_graph graph) [] []).
  intros k' v'. simpl. split; [discriminate|intros [[] _]].
Qed.

Lemma scene_graph_knowledge_entities_witness :
  PyDict.get "lung nodule"
    (@retrieve_knowledge_for_scene_graph exact_match (load scenario_store)
       nodule_graph 5)
  = Some [lung_located; lung_size; lung_located; lung_size].
Proof.
  apply (@scene_graph_knowledge_entities exact_match (load scenario_store)
           nodule_graph 5 "lung nodule"
           [lung_located; lung_size; lung_located; lung_size] eq_refl).
  split; [vm_compute; auto|]. split; [reflexivity|discriminate].
Defined.

End RetrieverCoverage.

(** ** knowledge_base/preprocessor.py: corpora, index keys and metadata *)

Module PreprocessorCoverage.
Import Preprocessor PyDict PyDictFacts ListFacts PreprocessorFacts.

Lemma mem_existsb {V} (k : string) (d : dict V) :
  mem k d = existsb (String.eqb k) (keys d).
Proof.
  unfold mem. induction d as [|[k' v] d IH]; simpl; [reflexivity|].
  destruct (String.eqb k k'); [reflexivity|exact IH].
Qed.

Lemma keys_index_under (e : string) (t : triplet) (idx : entity_index) :
  keys (index_under e t idx)
  = if existsb (String.eqb e) (keys idx) then keys idx else keys idx ++ [e].
Proof.
  unfold index_under. rewrite <- mem_existsb.
  destruct (mem e idx) eqn:Em.
  - unfold mem in Em. destruct (get e idx) eqn:Eg; [|discriminate].
    rewrite keys_set. unfold mem. now rewrite Eg.
  - rewrite get_set_same, keys_set. unfold mem at 1. rewrite get_set_same.
    rewrite keys_set. now rewrite Em.
Qed.

Lemma keys_fold (ts : list triplet) (idx : entity_index) :
  keys (fold_left index_triplet ts idx)
  = fold_left (fun seen x => if existsb (String.eqb x) seen then seen else seen ++ [x])
      (mentions ts) (keys idx).
Proof.
  revert idx. induction ts as [|t ts IH]; intros idx; simpl; [reflexivity|].
  rewrite IH. unfold index_triplet. now rewrite !keys_index_under.
Qed.

Lemma total_size_set_some (k : string) (v old : list triplet) (d : entity_index) :
  get k d = Some old ->
  (total_size (set k v d) + List.length old = total_size d + List.length v)%nat.
Proof.
  unfold total_size. induction d as [|[k' v'] d IH]; simpl; [discriminate|].
  destruct (String.eqb k k'); simpl.
  - intros H. inversion H; subst. lia.
  - intros H. specialize (IH H). lia.
Qed.

Lemma total_size_set_none (k : string) (v : list triplet) (d : entity_index) :
  get k d = None -> total_size (set k v d) = (total_size d + List.length v)%nat.
Proof.
  unfold total_size. induction d as [|[k' v'] d IH]; simpl; [intros _; lia|].
  destruct (String.eqb k k'); simpl; [discriminate|].
  intros H. rewrite (IH H). lia.
Qed.

Lemma total_size_index_under (e : string) (t : triplet) (idx : entity_index) :
  total_size (index_under e t idx) = S (total_size idx).
Proof.
  unfold index_under, mem. destruct (get e idx) as [b|] eqn:Eg.
  - rewrite Eg. pose proof (total_size_set_some e (b ++ [t]) b idx Eg) as H.
    rewrite length_app in H. simpl in H. lia.
  - rewrite get_set_same. change ([] ++ [t]) with [t].
    pose proof (total_size_set_some e [t] [] (set e [] idx)
                  (get_set_same e [] idx)) as H.
    rewrite (total_size_set_none e [] idx Eg) in H.
    change (List.length (@nil triplet)) with 0%nat in H.
    change (List.length [t]) with 1%nat in H. lia.
Qed.

Lemma total_size_fold (ts : list triplet) (idx : entity_index) :
  total_size (fold_left index_triplet ts idx)
  = (total_size idx + 2 * List.length ts)%nat.
Proof.
  revert idx. induction ts as [|t ts IH]; intros idx; simpl; [lia|].
  rewrite IH. unfold index_triplet. rewrite !total_size_index_under. lia.
Qed.

Lemma first_occurrences_fold_length (l seen : list string) :
  (List.length
     (fold_left (fun seen x => if existsb (String.eqb x) seen then seen else seen ++ [x])
        l seen)
   <= List.length seen + List.length l)%nat.
Proof.
  revert seen. induction l as [|x l IH]; intros seen; simpl; [lia|].
  specialize (IH (if existsb (String.eqb x) seen then seen else seen ++ [x])).
  destruct (existsb (String.eqb x) seen); rewrite ?length_app in IH; simpl in IH; lia.
Qed.

Lemma starts_with_app (n b : string) : PyStr.starts_with n (n ++ b) = true.
Proof.
  induction n as [|c n IH]; simpl; [reflexivity|].
  now rewrite Ascii.eqb_refl.
Qed.

Lemma contains_app_r (n a s : string) :
  PyStr.contains n s = true -> PyStr.contains n (a ++ s) = true.
Proof.
  intros H. induction a as [|c a IH]; simpl; [exact H|].
  rewrite IH. apply orb_true_r.
Qed.

Lemma entity_label_colon (info : rad_entity) :
  PyStr.contains ":" (entity_label info) = true.
Proof.
  unfold entity_label. apply contains_app_r.
  destruct (":" ++ or_default "" (ent_label_type info))%string eqn:E;
    [discriminate|].
  simpl in E. inversion E; subst. reflexivity.
Qed.

Lemma get_In {V} (k : string) (v : V) (d : dict V) :
  get k d = Some v -> exists k', In (k', v) d.
Proof.
  induction d as [|[k' v'] d IH]; simpl; [discriminate|].
  destruct (String.eqb k k').
  - intros H. inversion H; subst. exists k'. now left.
  - intros H. destruct (IH H) as [k'' Hin]. exists k''. now right.
Qed.

(** X19.  The keys of the entity index, and with them the retriever's
    [entity_list], are the entities of the store in the order in which
    they are first mentioned, the subject of a triplet before its
    object. *)
Theorem entity_index_keys_in_first_mention_order (store : list triplet) :
  keys (create_entity_index store) = first_occurrences (mentions store)
  /\ Retriever.entity_list (Retriever.load store) = first_occurrences (mentions store).
Proof.
  assert (H : keys (create_entity_index store) = first_occurrences (mentions store))
    by apply (keys_fold store []).
  split; [exact H|exact H].
Qed.

(** X20.  The buckets of the index written by [save_processed_data] hold
    every triplet twice in all; the metadata counts the two corpora and
    their sum, and never more than two entities per triplet. *)
Theorem save_processed_data_counts (radgraph tcga : list triplet) :
  let '(all_triplets, index, meta) := save_processed_data radgraph tcga in
  all_triplets = radgraph ++ tcga
  /\ index = create_entity_index (radgraph ++ tcga)
  /\ total_triplets meta = (radgraph_triplets meta + tcga_triplets meta)%nat
  /\ total_size index = (2 * total_triplets meta)%nat
  /\ (unique_entities meta <= 2 * total_triplets meta)%nat.
Proof.
  simpl. split; [reflexivity|]. split; [reflexivity|].
  split; [apply length_app|]. split.
  - unfold create_entity_index. now rewrite total_size_fold.
  - rewrite <- (length_map fst). fold (keys (create_entity_index (radgraph ++ tcga))).
    unfold create_entity_index. rewrite keys_fold.
    eapply Nat.le_trans; [apply first_occurrences_fold_length|].
    unfold mentions. simpl.
    induction (radgraph ++ tcga) as [|t l IH]; simpl; lia.
Qed.

(** X21.  Every triplet of [process_tcga_reports] has a non-empty
    subject; it is either a [located_in] triplet with a non-empty organ as
    object, or an attribute triplet whose predicate starts with [has_]. *)
Theorem tcga_triplets_well_formed (tcga_data : list tcga_report) (t : triplet) :
  In t (process_tcga_reports tcga_data) ->
  t_subject t <> ""
  /\ ((t_predicate t = "located_in" /\ t_object t <> "")
      \/ PyStr.starts_with "has_" (t_predicate t) = true).
Proof.
  unfold process_tcga_reports. rewrite in_flat_map.
  intros [report [_ Ht]]. unfold tcga_report_triplets in Ht.
  destruct report as [[by_organ|]|]; try contradiction.
  apply in_flat_map in Ht. destruct Ht as [[organ findings] [_ Ht]].
  apply in_flat_map in Ht. destruct Ht as [finding [_ Ht]].
  destruct finding as [entity attributes|]; [|contradiction].
  simpl in Ht. apply in_app_or in Ht. destruct Ht as [Ht|Ht].
  - destruct (String.eqb_spec (or_default "" entity) ""); [contradiction|].
    destruct (String.eqb_spec organ ""); [contradiction|].
    destruct Ht as [<-|[]]. split; [assumption|]. left. now split.
  - apply in_flat_map in Ht. destruct Ht as [[key value] [_ Ht]].
    destruct (String.eqb_spec (or_default "" entity) ""); [contradiction|].
    destruct Ht as [<-|[]]. split; [assumption|]. right. reflexivity.
Qed.

Lemma tcga_triplets_well_formed_witness :
  t_subject ("adenocarcinoma", "has_grade", "2") <> ""
  /\ ((t_predicate ("adenocarcinoma", "has_grade", "2") = "located_in"
       /\ t_object ("adenocarcinoma", "has_grade", "2") <> "")
      \/ PyStr.starts_with "has_" (t_predicate ("adenocarcinoma", "has_grade", "2"))
         = true).
Proof.
  apply (tcga_triplets_well_formed [lung_finding]).
  vm_compute. right. now left.
Defined.

(** X22.  Every triplet of [process_radgraph] has as subject the
    [label:type] text of an entity of one of the reports, so a subject
    always contains a colon. *)
Theorem radgraph_subjects_are_labels (radgraph_data : list (string * rad_report))
  (t : triplet) :
  In t (process_radgraph radgraph_data) ->
  PyStr.contains ":" (t_subject t) = true
  /\ exists name report entities id info,
       In (name, report) radgraph_data
       /\ rep_entities report = Some entities
       /\ In (id, info) entities
       /\ t_subject t = entity_label info.
Proof.
  unfold process_radgraph. rewrite in_flat_map.
  intros [[name report] [Hrep Ht]]. simpl in Ht.
  unfold radgraph_report_triplets in Ht.
  destruct (rep_entities report) as [entities|] eqn:Ee; [|contradiction].
  destruct (rep_relations report) as [relations|]; [|contradiction].
  assert (Hlabel : exists id info,
            In (id, info) entities /\ t_subject t = entity_label info).
  { apply in_app_or in Ht. destruct Ht as [Ht|Ht].
    - apply in_flat_map in Ht. destruct Ht as [relation [_ Ht]].
      destruct relation as [s p o|]; [|contradiction]. simpl in Ht.
      destruct (get (or_default "" s) entities) as [si|] eqn:Es; [|contradiction].
      destruct (get (or_default "" o) entities) as [oi|]; [|contradiction].
      destruct Ht as [<-|[]]. apply get_In in Es. destruct Es as [id Hin].
      now exists id, si.
    - apply in_flat_map in Ht. destruct Ht as [[id info] [Hin Ht]].
      unfold attribute_triplets in Ht. apply in_map_iff in Ht.
      destruct Ht as [kv [<- _]]. now exists id, info. }
  destruct Hlabel as [id [info [Hin Hs]]]. split.
  - rewrite Hs. apply entity_label_colon.
  - now exists name, report, entities, id, info.
Qed.

Lemma radgraph_subjects_are_labels_witness :
  PyStr.contains ":" (t_subject ("nodule:OBS-DP", "has_size", "2cm")) = true.
Proof.
  apply (radgraph_subjects_are_labels [("report", twin_report)]
           ("nodule:OBS-DP", "has_size", "2cm")).
  vm_compute. right. now left.
Defined.

(** X23.  Every relation of a report whose two ids are keys of the
    report's entities gives its triplet; when the two entities have the
    same label and type, the triplet has one text as subject and
    object. *)
Theorem radgraph_relation_kept (radgraph_data : list (string * rad_report))
  (name : string) (report : rad_report) (entities : dict rad_entity)
  (relations : list rad_relation) (s p o : option string) (si oi : rad_entity) :
  In (name, report) radgraph_data ->
  rep_entities report = Some entities ->
  rep_relations report = Some relations ->
  In (relation_dict s p o) relations ->
  get (or_default "" s) entities = Some si ->
  get (or_default "" o) entities = Some oi ->
  In (entity_label si, or_default "" p, entity_label oi)
    (process_radgraph radgraph_data)
  /\ (ent_label si = ent_label oi -> ent_label_type si = ent_label_type oi ->
      exists t, In t (process_radgraph radgraph_data) /\ t_subject t = t_object t).
Proof.
  intros Hrep He Hr Hrel Hs Ho.
  assert (Hin : In (entity_label si, or_default "" p, entity_label oi)
                  (process_radgraph radgraph_data)).
  { unfold process_radgraph. apply in_flat_map. exists (name, report).
    split; [assumption|]. simpl. unfold radgraph_report_triplets.
    rewrite He, Hr. apply in_or_app. left. apply in_flat_map.
    exists (relation_dict s p o). split; [assumption|].
    simpl. rewrite Hs, Ho. now left. }
  split; [exact Hin|].
  intros Hl Ht. eexists. split; [exact Hin|].
  unfold t_subject, t_object, entity_label. simpl. now rewrite Hl, Ht.
Qed.

Lemma radgraph_relation_kept_witness :
  In ("nodule:OBS-DP", "located_at", "nodule:OBS-DP")
    (process_radgraph [("report", twin_report)]).
Proof.
  apply (radgraph_relation_kept [("report", twin_report)] "report" twin_report
           [("1", {| ent_label := Some "nodule"; ent_label_type := Some "OBS-DP";
                     ent_attributes := Some [("size", "2cm")] |});
            ("2", {| ent_label := Some "nodule"; ent_label_type := Some "OBS-DP";
                     ent_attributes := None |})]
           [relation_dict (Some "1") (Some "located_at") (Some "2")]
           (Some "1") (Some "located_at") (Some "2")
           {| ent_label := Some "nodule"; ent_label_type := Some "OBS-DP";
              ent_attributes := Some [("size", "2cm")] |}
           {| ent_label := Some "nodule"; ent_label_type := Some "OBS-DP";
              ent_attributes := None |});
    try reflexivity; now left.
Defined.

End PreprocessorCoverage.

(** ** utils/register.py and the output path *)

Module UtilsCoverage.
Import OutputUtils Register PyDictFacts.

Lemma append_assoc (a b c : string) : ((a ++ b) ++ c = a ++ (b ++ c))%string.
Proof. induction a as [|x a IH]; simpl; [reflexivity|now rewrite IH]. Qed.

(** X24.  A registered class is what [get_class] returns for its name,
    the last registration under a name wins, other names are not
    touched, and a name never registered gives the [ValueError]. *)
Theorem registry_lookup (class : Type) (r : registry class) (name : string)
  (cls cls' : class) :
  get_class class name (register class name cls r) = inr cls
  /\ get_class class name (register class name cls' (register class name cls r))
     = inr cls'
  /\ (forall other, other <> name ->
        get_class class other (register class name cls r) = get_class class other r)
  /\ get_class class name (empty class)
     = inl ("Class " ++ name ++ " not registered")%string.
Proof.
  unfold get_class, register. split; [|split; [|split]].
  - now rewrite get_set_same.
  - now rewrite get_set_same.
  - intros other Hne. rewrite get_set_other by congruence. reflexivity.
  - reflexivity.
Qed.

(** X25.  The path of the ledger does not keep its four fields apart:
    text moved across an underscore from the dataset name to the method
    name gives the same file, so two such runs share one ledger. *)
Theorem format_output_filepath_collides
  (language_model visual_model method dataset x : string) :
  format_output_filepath language_model visual_model method
    (dataset ++ "_" ++ x)%string
  = format_output_filepath language_model visual_model (x ++ "_" ++ method)%string
      dataset.
Proof.
  unfold format_output_filepath. f_equal.
  now rewrite !append_assoc.
Qed.

End UtilsCoverage.

(** ** scripts/SMRAgents.py: what one item does to the ledger *)

Module RunEffects.
Import OutputUtils SMRAgents RunCoverage.

Create HintDb keeps.

Section Agents.
Context {C : Collaborators}.

Lemma keeps_ret {A} (a : A) : keeps_file (ret a).
Proof. intros st. reflexivity. Qed.

Lemma keeps_call {A} (f : world -> (exn + A) * world) : keeps_file (call f).
Proof. intros st. unfold call. now destruct (f (ext st)). Qed.

Lemma keeps_l_engine (p : prompt) : keeps_file (l_engine p).
Proof. intros st. unfold l_engine. now destruct (l_get_response p (ext st)). Qed.

Lemma keeps_assign (q a : string) : keeps_file (assign_question_answer q a).
Proof. intros st. reflexivity. Qed.

Lemma keeps_read : keeps_file read_question_answer.
Proof. intros st. unfold read_question_answer. now destruct (question_answer st). Qed.

Lemma keeps_bind {A B} (m : M A) (k : A -> M B) :
  keeps_file m -> (forall x, keeps_file (k x)) -> keeps_file (bind m k).
Proof.
  intros Hm Hk st. unfold bind. specialize (Hm st).
  destruct (m st) as [[e|x] st']; simpl in *; [assumption|].
  now rewrite Hk.
Qed.

Hint Resolve keeps_ret keeps_call keeps_l_engine keeps_assign keeps_read : keeps.

Ltac keeps_chain :=
  repeat first
    [ solve [auto with keeps]
    | apply keeps_bind; [|intros ?]
    | match goal with
      | |- keeps_file (if ?b then _ else _) => destruct b
      | |- keeps_file (match ?x with (_, _) => _ end) => destruct x
      end ].

Lemma keeps_generate (question image path : string) :
  keeps_file (generate_and_refine_scene_graph question image path).
Proof. unfold generate_and_refine_scene_graph. keeps_chain. Qed.

Lemma keeps_update_each (question description feedback : string)
  (specialists acc : list string) :
  keeps_file (update_each question description feedback specialists acc).
Proof.
  revert acc. induction specialists as [|sp rest IH]; intros acc; simpl.
  - auto with keeps.
  - destruct (PyStr.contains _ feedback); [|apply IH].
    apply keeps_bind; [auto with keeps|]. intros x. apply IH.
Qed.

Lemma keeps_update (question description current_opinions feedback : string) :
  keeps_file (update_specialist_opinions question description current_opinions
                feedback).
Proof.
  unfold update_specialist_opinions.
  apply keeps_bind; [apply keeps_update_each|]. intros l. auto with keeps.
Qed.

Hint Resolve keeps_generate keeps_update : keeps.

Lemma keeps_iteration (question description experts_opinions expert_diagnosis : string)
  (iteration : nat) :
  keeps_file (process_feedback_iteration question description experts_opinions
                expert_diagnosis iteration).
Proof. unfold process_feedback_iteration. keeps_chain. Qed.

Hint Resolve keeps_iteration : keeps.

Lemma keeps_review_loop (question description : string) (iterations : list nat)
  (experts_opinions expert_diagnosis : string) :
  keeps_file (review_loop question description iterations experts_opinions
                expert_diagnosis).
Proof.
  revert experts_opinions expert_diagnosis.
  induction iterations as [|i rest IH]; intros ops diag; simpl.
  - auto with keeps.
  - apply keeps_bind; [auto with keeps|].
    intros [[ops' diag'] cont]. destruct (negb cont); [auto with keeps|apply IH].
Qed.

Hint Resolve keeps_review_loop : keeps.

Lemma keeps_review_and_integrate (question description : string)
  (iterations : list nat) (experts_opinions expert_diagnosis : string) :
  keeps_file (review_and_integrate question description iterations experts_opinions
                expert_diagnosis).
Proof. unfold review_and_integrate, integrate. keeps_chain. Qed.

Hint Resolve keeps_review_and_integrate : keeps.

Lemma writes_bind {A B} (idx : Z) (m : M A) (k : A -> M B) :
  keeps_file m -> (forall x, writes_once idx (k x)) -> writes_once idx (bind m k).
Proof.
  intros Hm Hk st. unfold bind. specialize (Hm st).
  destruct (m st) as [[e|x] st']; simpl in *; [assumption|].
  specialize (Hk x st'). rewrite Hm in Hk. exact Hk.
Qed.

Lemma writes_try {A} (idx : Z) (body : M A) (handler : exn -> M A) :
  writes_once idx body -> (forall e, writes_once idx (handler e)) ->
  writes_once idx (try_except body handler).
Proof.
  intros Hb Hh st. unfold try_except. specialize (Hb st).
  destruct (body st) as [[e|x] st']; simpl in *; [|assumption].
  destruct (is_exception e); [|assumption].
  specialize (Hh e st'). rewrite Hb in Hh. exact Hh.
Qed.

(** What follows holds on a working file system. *)
Hypothesis Hfiles : reliable_files.

Lemma writes_save (q truth pred : string) (idx : Z) :
  writes_once idx (save q truth pred idx).
Proof.
  intros st. rewrite (save_goes_through Hfiles). simpl. now exists q, truth, pred.
Qed.

Lemma writes_process_item (idx : Z) : writes_once idx (process_item idx).
Proof.
  unfold process_item.
  repeat (apply writes_bind; [solve [auto with keeps]|intros ?]).
  apply writes_save.
Qed.

Lemma writes_save_error (idx : Z) (e : exn) : writes_once idx (save_error idx e).
Proof.
  unfold save_error. apply writes_bind; [auto with keeps|].
  intros [q a]. apply writes_save.
Qed.

End Agents.





End RunEffects.
